(** * SessionConsoleProcess: console processes, their registry and the
      password manager

    A shallow embedding of [src/cpp/session/SessionConsoleProcess.cpp].
    [std::string] is [string]; [int] is [Z]; the process table
    [std::map<std::string, boost::shared_ptr<ConsoleProcess>>] is a
    [gmap string nat] of object identities into a heap of process objects;
    client events, supervisor launches and process operations are recorded
    in explicit traces. *)

From Stdlib Require Import ZArith Ascii String List Bool Lia DecimalString.
From stdpp Require Import base option gmap strings list fin_maps.
Import ListNotations.

Local Open Scope string_scope.
Local Open Scope Z_scope.

(** ** Text helpers *)

Definition chars (s : string) : list ascii := list_ascii_of_string s.

Definition cr : ascii := ascii_of_nat 13.
Definition bs : ascii := ascii_of_nat 8.
Definition lf : ascii := ascii_of_nat 10.
Definition ff : ascii := ascii_of_nat 12.
Definition sp : ascii := ascii_of_nat 32.

Definition str1 (c : ascii) : string := String c EmptyString.

(** ** Regular expressions

    [boost::regex] objects are modelled by their abstract syntax and matched
    with Brzozowski derivatives. [regex_match] demands that the whole input
    is matched, [regex_search] that some substring is. *)

Module Regex.

Inductive regex : Type :=
| Never : regex
| Empty : regex
| Class : (ascii -> bool) -> regex
| Seq : regex -> regex -> regex
| Alt : regex -> regex -> regex
| Star : regex -> regex.

Definition Plus (r : regex) : regex := Seq r (Star r).

Definition anychar : regex := Class (fun _ => true).

Fixpoint nullable (r : regex) : bool :=
  match r with
  | Never => false
  | Empty => true
  | Class _ => false
  | Seq r1 r2 => nullable r1 && nullable r2
  | Alt r1 r2 => nullable r1 || nullable r2
  | Star _ => true
  end.

Fixpoint deriv (c : ascii) (r : regex) : regex :=
  match r with
  | Never => Never
  | Empty => Never
  | Class p => if p c then Empty else Never
  | Seq r1 r2 =>
      if nullable r1
      then Alt (Seq (deriv c r1) r2) (deriv c r2)
      else Seq (deriv c r1) r2
  | Alt r1 r2 => Alt (deriv c r1) (deriv c r2)
  | Star r1 => Seq (deriv c r1) (Star r1)
  end.

Fixpoint accepts (r : regex) (w : list ascii) : bool :=
  match w with
  | [] => nullable r
  | c :: w' => accepts (deriv c r) w'
  end.

Definition regex_match (s : string) (r : regex) : bool :=
  accepts r (chars s).

Definition regex_search (s : string) (r : regex) : bool :=
  accepts (Seq (Star anychar) (Seq r (Star anychar))) (chars s).

(** The language of a regular expression, as a relation. *)
Inductive Matches : regex -> list ascii -> Prop :=
| MEmpty : Matches Empty []
| MClass p c : p c = true -> Matches (Class p) [c]
| MSeq r1 r2 w1 w2 :
    Matches r1 w1 -> Matches r2 w2 -> Matches (Seq r1 r2) (w1 ++ w2)
| MAltL r1 r2 w : Matches r1 w -> Matches (Alt r1 r2) w
| MAltR r1 r2 w : Matches r2 w -> Matches (Alt r1 r2) w
| MStarNil r : Matches (Star r) []
| MStarCons r w1 w2 :
    Matches r w1 -> Matches (Star r) w2 -> Matches (Star r) (w1 ++ w2).

(** The pattern that matches the characters of [s], one after the other. *)
Fixpoint literal (w : list ascii) : regex :=
  match w with
  | [] => Empty
  | c :: w' => Seq (Class (Ascii.eqb c)) (literal w')
  end.

(** Character classes of the C locale, as [boost::regex] over [char] uses
    them: a word character is an ASCII letter, an ASCII digit or the
    underscore. *)
Definition is_digit (c : ascii) : bool :=
  let n := nat_of_ascii c in (48 <=? n)%nat && (n <=? 57)%nat.
Definition is_upper (c : ascii) : bool :=
  let n := nat_of_ascii c in (65 <=? n)%nat && (n <=? 90)%nat.
Definition is_lower (c : ascii) : bool :=
  let n := nat_of_ascii c in (97 <=? n)%nat && (n <=? 122)%nat.
Definition is_underscore (c : ascii) : bool := Ascii.eqb c "_"%char.
Definition is_word (c : ascii) : bool :=
  is_digit c || is_upper c || is_lower c || is_underscore c.

End Regex.

Import Regex.

(** ** ConsoleProcess::Input

    The struct is declared in the header, which this file only includes;
    its three fields appear in [procWriteStdin], its two constructors and
    [empty()] in [PasswordManager::handlePrompt] and
    [ConsoleProcess::handleConsolePrompt]. *)

Module Input.

Record t : Type := mk {
  interrupt : bool;
  text : string;
  echoInput : bool
}.

(** [Input(text, echoInput)] *)
Definition of_text (txt : string) (echo : bool) : t :=
  {| interrupt := false; text := txt; echoInput := echo |}.

(** [Input()] *)
Definition default : t :=
  {| interrupt := false; text := ""; echoInput := false |}.

Definition empty (i : t) : bool :=
  negb (interrupt i) && String.eqb (text i) "".

End Input.

(** ** PasswordManager *)

Module PasswordManager.

Record CachedPassword : Type := mkCachedPassword {
  cpHandle : string;
  prompt : string;
  password : string;
  remember : bool
}.

(** The manager: its password-prompt pattern, the interactive callback
    [promptHandler_] (answering [Some (password, remember)] or [None] when
    the user cancels), the cache, and the log of the calls made to the
    callback so far. *)
Record t : Type := mk {
  promptPattern_ : regex;
  promptHandler_ : string -> bool -> option (string * bool);
  passwords_ : list CachedPassword;
  promptHandlerCalls : list (string * bool)
}.

Definition EXIT_SUCCESS : Z := 0.

Definition hasPrompt (cachedPassword : CachedPassword) (p : string) : bool :=
  String.eqb (prompt cachedPassword) p.

Definition hasHandle (cachedPassword : CachedPassword) (h : string) : bool :=
  String.eqb (cpHandle cachedPassword) h.

Definition forgetOnExit (cachedPassword : CachedPassword) (h : string) : bool :=
  hasHandle cachedPassword h && negb (remember cachedPassword).

(** [v.erase(std::remove_if(v.begin(), v.end(), pred), v.end())] *)
Definition erase_remove_if {A} (pred : A -> bool) (v : list A) : list A :=
  List.filter (fun x => negb (pred x)) v.

(** [handlePrompt]: [None] is the [false] return (not a password prompt,
    [*pInput] untouched); [Some i] is the [true] return with [*pInput = i]. *)
Definition handlePrompt (h : string) (p : string) (showRememberOption : bool)
    (pm : t) : option Input.t * t :=
  if regex_match p (promptPattern_ pm) then
    match List.find (fun c => hasPrompt c p) (passwords_ pm) with
    | Some it => (Some (Input.of_text (password it +:+ str1 lf) false), pm)
    | None =>
        let pm1 :=
          {| promptPattern_ := promptPattern_ pm;
             promptHandler_ := promptHandler_ pm;
             passwords_ := passwords_ pm;
             promptHandlerCalls :=
               promptHandlerCalls pm ++ [(p, showRememberOption)] |} in
        match promptHandler_ pm p showRememberOption with
        | Some (pw, rem) =>
            let cachedPassword :=
              {| cpHandle := h; prompt := p; password := pw; remember := rem |} in
            (Some (Input.of_text (pw +:+ str1 lf) false),
             {| promptPattern_ := promptPattern_ pm1;
                promptHandler_ := promptHandler_ pm1;
                passwords_ := passwords_ pm1 ++ [cachedPassword];
                promptHandlerCalls := promptHandlerCalls pm1 |})
        | None => (Some Input.default, pm1)
        end
    end
  else (None, pm).

Definition onExit (h : string) (exitCode : Z) (pm : t) : t :=
  {| promptPattern_ := promptPattern_ pm;
     promptHandler_ := promptHandler_ pm;
     passwords_ :=
       if negb (exitCode =? EXIT_SUCCESS)
       then erase_remove_if (fun c => hasHandle c h) (passwords_ pm)
       else erase_remove_if (fun c => forgetOnExit c h) (passwords_ pm);
     promptHandlerCalls := promptHandlerCalls pm |}.

End PasswordManager.

(** ** Errors and JSON values *)

Inductive Error : Type :=
| Success : Error
| SystemError : string -> Error.

Definition isError (e : Error) : bool :=
  match e with Success => false | SystemError _ => true end.

#[warnings="-register-all"] Inductive Json : Type :=
| JNull : Json
| JBool : bool -> Json
| JInt : Z -> Json
| JStr : string -> Json
| JArr : list Json -> Json
| JObj : list (string * Json) -> Json.

Fixpoint json_field (k : string) (fields : list (string * Json)) : option Json :=
  match fields with
  | [] => None
  | (k', v) :: rest => if String.eqb k k' then Some v else json_field k rest
  end.

(** ** ConsoleProcessInfo *)

Inductive InteractionMode : Type :=
| InteractionNever | InteractionPossible | InteractionAlways.

Definition InteractionMode_to_Z (m : InteractionMode) : Z :=
  match m with
  | InteractionNever => 0
  | InteractionPossible => 1
  | InteractionAlways => 2
  end.

Definition InteractionMode_of_Z (z : Z) : option InteractionMode :=
  match z with
  | 0 => Some InteractionNever
  | 1 => Some InteractionPossible
  | 2 => Some InteractionAlways
  | _ => None
  end.

(** Modelled from the spec: the sentinel terminal sequence of a session that
    is not a terminal tab (a modal console); the constant [kNoTerminal] is
    declared in a header this file includes. *)
Definition kNoTerminal : Z := 0.

(** Modelled from the spec: class [ConsoleProcessInfo] (section 3,
    ProcessSessionInfo) is declared and implemented in other files. The
    fields are the persisted metadata the spec lists, the interaction mode
    [commonInit] consults, and [isStarted], the one piece of live state the
    source keeps here. *)
Record ConsoleProcessInfo : Type := mkInfo {
  handle_ : string;
  caption_ : string;
  title_ : string;
  terminalSequence_ : Z;
  allowRestart_ : bool;
  hasChildProcs_ : bool;
  exitCode_ : option Z;
  maxOutputLines_ : Z;
  interactionMode_ : InteractionMode;
  outputBuffer_ : string;
  isStarted_ : bool
}.

Module Info.

Definition with_handle (h : string) (i : ConsoleProcessInfo) :=
  mkInfo h (caption_ i) (title_ i) (terminalSequence_ i) (allowRestart_ i)
    (hasChildProcs_ i) (exitCode_ i) (maxOutputLines_ i) (interactionMode_ i)
    (outputBuffer_ i) (isStarted_ i).

Definition setCaption (c : string) (i : ConsoleProcessInfo) :=
  mkInfo (handle_ i) c (title_ i) (terminalSequence_ i) (allowRestart_ i)
    (hasChildProcs_ i) (exitCode_ i) (maxOutputLines_ i) (interactionMode_ i)
    (outputBuffer_ i) (isStarted_ i).

Definition setTitle (t : string) (i : ConsoleProcessInfo) :=
  mkInfo (handle_ i) (caption_ i) t (terminalSequence_ i) (allowRestart_ i)
    (hasChildProcs_ i) (exitCode_ i) (maxOutputLines_ i) (interactionMode_ i)
    (outputBuffer_ i) (isStarted_ i).

Definition setHasChildProcs (b : bool) (i : ConsoleProcessInfo) :=
  mkInfo (handle_ i) (caption_ i) (title_ i) (terminalSequence_ i)
    (allowRestart_ i) b (exitCode_ i) (maxOutputLines_ i) (interactionMode_ i)
    (outputBuffer_ i) (isStarted_ i).

Definition setExitCode (code : Z) (i : ConsoleProcessInfo) :=
  mkInfo (handle_ i) (caption_ i) (title_ i) (terminalSequence_ i)
    (allowRestart_ i) (hasChildProcs_ i) (Some code) (maxOutputLines_ i)
    (interactionMode_ i) (outputBuffer_ i) (isStarted_ i).

Definition setIsStarted (b : bool) (i : ConsoleProcessInfo) :=
  mkInfo (handle_ i) (caption_ i) (title_ i) (terminalSequence_ i)
    (allowRestart_ i) (hasChildProcs_ i) (exitCode_ i) (maxOutputLines_ i)
    (interactionMode_ i) (outputBuffer_ i) b.

(** Modelled from the spec: the embedded buffer, "output text is appended
    directly to the persisted metadata; read back verbatim" (section 4.2).
    The capacity of the buffer, which the spec does not give, is left
    out. *)
Definition appendToOutputBuffer (s : string) (i : ConsoleProcessInfo) :=
  mkInfo (handle_ i) (caption_ i) (title_ i) (terminalSequence_ i)
    (allowRestart_ i) (hasChildProcs_ i) (exitCode_ i) (maxOutputLines_ i)
    (interactionMode_ i) (outputBuffer_ i +:+ s) (isStarted_ i).

Definition bufferedOutput (i : ConsoleProcessInfo) : string := outputBuffer_ i.

(** Modelled from the spec: a handle is "generated once"; [fresh] is the
    identifier the generator would hand out now. *)
Definition ensureHandle (fresh : string) (i : ConsoleProcessInfo) :=
  if String.eqb (handle_ i) "" then with_handle fresh i else i.

Definition exitCode_toJson (c : option Z) : Json :=
  match c with Some z => JInt z | None => JNull end.

(** Modelled from the spec: the per-session JSON object of the persisted
    index (section 6): handle, allowRestart, hasChildProcs, exit code if
    any, terminal identity, caption and title, the output-line limit and the
    embedded output text. Whether a process is started is live state and is
    not written. *)
Definition toJson (i : ConsoleProcessInfo) : Json :=
  JObj [ ("handle", JStr (handle_ i));
         ("caption", JStr (caption_ i));
         ("title", JStr (title_ i));
         ("terminal_sequence", JInt (terminalSequence_ i));
         ("allow_restart", JBool (allowRestart_ i));
         ("child_procs", JBool (hasChildProcs_ i));
         ("exit_code", exitCode_toJson (exitCode_ i));
         ("max_output_lines", JInt (maxOutputLines_ i));
         ("interaction_mode", JInt (InteractionMode_to_Z (interactionMode_ i)));
         ("buffered_output", JStr (outputBuffer_ i)) ].

Definition getStr (k : string) (o : list (string * Json)) : option string :=
  match json_field k o with Some (JStr s) => Some s | _ => None end.
Definition getInt (k : string) (o : list (string * Json)) : option Z :=
  match json_field k o with Some (JInt z) => Some z | _ => None end.
Definition getBool (k : string) (o : list (string * Json)) : option bool :=
  match json_field k o with Some (JBool b) => Some b | _ => None end.
Definition getExitCode (o : list (string * Json)) : option (option Z) :=
  match json_field "exit_code" o with
  | Some (JInt z) => Some (Some z)
  | Some JNull => Some None
  | _ => None
  end.

(** Modelled from the spec: the inverse of [toJson]; the entry it rebuilds
    is inert (not started). [None] stands for a field of the wrong type or
    a missing field. *)
Definition fromJson (o : list (string * Json)) : option ConsoleProcessInfo :=
  h ← getStr "handle" o;
  c ← getStr "caption" o;
  t ← getStr "title" o;
  ts ← getInt "terminal_sequence" o;
  ar ← getBool "allow_restart" o;
  cp ← getBool "child_procs" o;
  ec ← getExitCode o;
  ml ← getInt "max_output_lines" o;
  imz ← getInt "interaction_mode" o;
  im ← InteractionMode_of_Z imz;
  b ← getStr "buffered_output" o;
  Some (mkInfo h c t ts ar cp ec ml im b false).

End Info.

(** ** Process options and the process supervisor *)

(** The fields of [core::system::ProcessOptions] this file reads or
    writes. *)
Record ProcessOptions : Type := mkOptions {
  smartTerminal : bool;
  redirectStdErrToStdOut : bool;
  terminateChildren : bool;
  reportHasSubprocs : bool;
  cols : Z;
  rows : Z;
  pseudoterminal : option (Z * Z);
  environment : option (list (string * string))
}.

Module Options.

Definition with_redirectStdErrToStdOut (b : bool) (o : ProcessOptions) :=
  mkOptions (smartTerminal o) b (terminateChildren o) (reportHasSubprocs o)
    (cols o) (rows o) (pseudoterminal o) (environment o).

Definition with_terminateChildren (b : bool) (o : ProcessOptions) :=
  mkOptions (smartTerminal o) (redirectStdErrToStdOut o) b
    (reportHasSubprocs o) (cols o) (rows o) (pseudoterminal o) (environment o).

Definition with_pseudoterminal (p : option (Z * Z)) (o : ProcessOptions) :=
  mkOptions (smartTerminal o) (redirectStdErrToStdOut o) (terminateChildren o)
    (reportHasSubprocs o) (cols o) (rows o) p (environment o).

Definition with_environment (e : option (list (string * string)))
    (o : ProcessOptions) :=
  mkOptions (smartTerminal o) (redirectStdErrToStdOut o) (terminateChildren o)
    (reportHasSubprocs o) (cols o) (rows o) (pseudoterminal o) e.

(** A default-constructed [ProcessOptions], as the member [options_] of a
    process rebuilt from JSON has it. *)
Definition default : ProcessOptions :=
  mkOptions false false false false 80 25 None None.

(** [core::system::setenv(&env, name, value)]: replace the variable where
    it is set, add it otherwise. *)
Fixpoint setenv (env : list (string * string)) (name value : string)
    : list (string * string) :=
  match env with
  | [] => [(name, value)]
  | (n, v) :: rest =>
      if String.eqb n name then (n, value) :: rest
      else (n, v) :: setenv rest name value
  end.

End Options.

(** What the supervisor is asked to run: [runCommand], [runProgram] or
    [runTerminal]. *)
Inductive Launch : Type :=
| RunCommand : string -> ProcessOptions -> Launch
| RunProgram : string -> list string -> ProcessOptions -> Launch
| RunTerminal : ProcessOptions -> Launch.

(** Calls made on [core::system::ProcessOperations]. *)
Inductive OpCall : Type :=
| PtyInterrupt : OpCall
| WriteToStdin : string -> bool -> OpCall
| PtySetSize : Z -> Z -> OpCall
| Terminate : OpCall.

(** Events handed to [module_context::enqueClientEvent]. *)
Inductive ClientEvent : Type :=
| ConsoleProcessOutput (handle : string) (error : bool) (output : string)
| ConsoleProcessPrompt (handle : string) (prompt : string)
| ConsoleProcessExit (handle : string) (exitCode : Z)
| TerminalSubprocs (handle : string) (subprocs : bool).

Definition isPromptEvent (e : ClientEvent) : bool :=
  match e with ConsoleProcessPrompt _ _ => true | _ => false end.

Definition isOutputEvent (e : ClientEvent) : bool :=
  match e with ConsoleProcessOutput _ _ _ => true | _ => false end.

(** ** The collaborators outside the file

    Functions of other modules that this file calls and whose code is not
    in this file: the JSON writer and parser, the handle generator,
    line-ending conversion, the outcome of a launch request (given the
    requests made before it), the environment of the host process, the TERM
    values, and what [ConsoleProcessInfo::onSuspend] does to an entry. *)
Class Host : Type := {
  json_write : Json -> string;
  json_parse : string -> option Json;
  generateShortenedUuid : nat -> string;
  convertLineEndingsPosix : string -> string;
  launchOutcome : list Launch -> Launch -> Error;
  systemEnvironment : list (string * string);
  kSmartTerm : string;
  kDumbTerm : string;
  procInfo_onSuspend : ConsoleProcessInfo -> ConsoleProcessInfo
}.

(** ** The scratch directory *)

(** Modelled from the spec: [FilePath], [readStringFromFile],
    [appendToFile] and [writeStringToFile] belong to the core library
    (sections 4.2 and 7: a log file per handle in a scratch directory,
    appended to and read whole; a failing operation is reported and changes
    nothing). The directory [s_consoleProcPath] holds one file per name;
    [dirAvailable] says whether [ensureDirectory] succeeds, [readable] and
    [writable] whether reading and writing a file do. *)
Record FileSystem : Type := mkFS {
  dirAvailable : bool;
  readable : bool;
  writable : bool;
  files : gmap string string
}.

Module FS.

Definition with_files (f : gmap string string) (fs : FileSystem) :=
  mkFS (dirAvailable fs) (readable fs) (writable fs) f.

(** Modelled from the spec: [FilePath::ensureDirectory]. *)
Definition ensureDirectory (fs : FileSystem) : Error :=
  if dirAvailable fs then Success else SystemError "ensureDirectory".

(** Modelled from the spec: [FilePath::exists]. *)
Definition exists_ (name : string) (fs : FileSystem) : bool :=
  bool_decide (is_Some (files fs !! name)).

(** Modelled from the spec: [core::readStringFromFile], the whole file
    as it is. *)
Definition readStringFromFile (name : string) (fs : FileSystem)
    : Error * string :=
  if readable fs then
    match files fs !! name with
    | Some content => (Success, content)
    | None => (SystemError "readStringFromFile", "")
    end
  else (SystemError "readStringFromFile", "").

(** Modelled from the spec: [core::appendToFile]; a file that does not
    exist yet starts empty. *)
Definition appendToFile (name : string) (s : string) (fs : FileSystem)
    : Error * FileSystem :=
  if writable fs then
    (Success, with_files (<[name := default "" (files fs !! name) +:+ s]> (files fs)) fs)
  else (SystemError "appendToFile", fs).

(** Modelled from the spec: [core::writeStringToFile]. *)
Definition writeStringToFile (name : string) (s : string) (fs : FileSystem)
    : Error * FileSystem :=
  if writable fs then (Success, with_files (<[name := s]> (files fs)) fs)
  else (SystemError "writeStringToFile", fs).

(** Modelled from the spec: [FilePath::removeIfExists]. *)
Definition removeIfExists (name : string) (fs : FileSystem)
    : Error * FileSystem :=
  if writable fs then (Success, with_files (delete name (files fs)) fs)
  else if exists_ name fs then (SystemError "removeIfExists", fs)
  else (Success, fs).

End FS.

Definition kConsoleIndex : string := "INDEX".

(** ** std::string operations used by the output state machine *)

Definition substr (s : string) (pos len : nat) : string :=
  String.substring pos len s.

Definition substr_from (s : string) (pos : nat) : string :=
  String.substring pos (String.length s - pos) s.

Definition ends_with (s suffix : string) : bool :=
  let n := String.length s in
  let m := String.length suffix in
  (m <=? n)%nat && String.eqb (substr_from s (n - m)) suffix.

Fixpoint find_last_of_from (w : list ascii) (set : list ascii) (i : nat)
    (found : option nat) : option nat :=
  match w with
  | [] => found
  | c :: w' =>
      find_last_of_from w' set (S i)
        (if existsb (Ascii.eqb c) set then Some i else found)
  end.

(** [s.find_last_of(set)]; [None] is [std::string::npos]. *)
Definition find_last_of (s set : string) : option nat :=
  find_last_of_from (chars s) (chars set) 0%nat None.

(** ** Trimming an event's payload *)

(** The lines of a text, each with its line feed; the last one may lack
    it. *)
Fixpoint splitLines (w : list ascii) : list (list ascii) :=
  match w with
  | [] => []
  | c :: w' =>
      if Ascii.eqb c lf then [c] :: splitLines w'
      else match splitLines w' with
           | [] => [[c]]
           | l :: ls => (c :: l) :: ls
           end
  end.

Definition lineCount (s : string) : nat := length (splitLines (chars s)).

Fixpoint dropLine (w : list ascii) : list ascii :=
  match w with
  | [] => []
  | c :: w' => if Ascii.eqb c lf then w' else dropLine w'
  end.

(** Modelled from the spec: [string_utils::trimLeadingLines] is defined in
    the core library; it leaves "a trimmed copy retaining only the last N
    lines" (section 4.1). Leading lines are dropped one by one until at most
    [maxLines] are left. *)
Definition trimLeadingLines (maxLines : Z) (s : string) : string :=
  string_of_list_ascii
    (Nat.iter (lineCount s - Z.to_nat maxLines) dropLine (chars s)).

(** ** What a process object acts on

    Besides its own members: the scratch directory, the queue of client
    events, the calls made on the process operations and on the supervisor,
    and the password manager that bound prompt handlers and exit slots refer
    to. *)
Record Env : Type := mkEnv {
  fileSystem : FileSystem;
  clientEvents : list ClientEvent;
  opsCalls : list OpCall;
  supervisorCalls : list Launch;
  passwordManager : PasswordManager.t
}.

Definition with_fileSystem (f : FileSystem) (e : Env) : Env :=
  mkEnv f (clientEvents e) (opsCalls e) (supervisorCalls e) (passwordManager e).

Definition enqueClientEvent (ev : ClientEvent) (e : Env) : Env :=
  mkEnv (fileSystem e) (clientEvents e ++ [ev]) (opsCalls e)
    (supervisorCalls e) (passwordManager e).

Definition opCall (c : OpCall) (e : Env) : Env :=
  mkEnv (fileSystem e) (clientEvents e) (opsCalls e ++ [c])
    (supervisorCalls e) (passwordManager e).

Definition supervisorCall (l : Launch) (e : Env) : Env :=
  mkEnv (fileSystem e) (clientEvents e) (opsCalls e)
    (supervisorCalls e ++ [l]) (passwordManager e).

Definition with_passwordManager (pm : PasswordManager.t) (e : Env) : Env :=
  mkEnv (fileSystem e) (clientEvents e) (opsCalls e) (supervisorCalls e) pm.

(** ** ConsoleProcess *)

Module ConsoleProcess.

Definition PromptHandler : Type :=
  string -> PasswordManager.t -> option Input.t * PasswordManager.t.

Definition ExitSlot : Type := Z -> PasswordManager.t -> PasswordManager.t.

Record t : Type := mk {
  command_ : string;
  program_ : string;
  args_ : list string;
  options_ : ProcessOptions;
  procInfo_ : ConsoleProcessInfo;
  interrupt_ : bool;
  newCols_ : Z;
  newRows_ : Z;
  childProcsSent_ : bool;
  inputQueue_ : list Input.t;
  onPrompt_ : option PromptHandler;
  onExit_ : list ExitSlot;
  controlCharsPattern_ : regex;
  promptPattern_ : regex
}.

Definition with_options (o : ProcessOptions) (p : t) : t :=
  mk (command_ p) (program_ p) (args_ p) o (procInfo_ p) (interrupt_ p)
    (newCols_ p) (newRows_ p) (childProcsSent_ p) (inputQueue_ p)
    (onPrompt_ p) (onExit_ p) (controlCharsPattern_ p) (promptPattern_ p).

Definition with_procInfo (i : ConsoleProcessInfo) (p : t) : t :=
  mk (command_ p) (program_ p) (args_ p) (options_ p) i (interrupt_ p)
    (newCols_ p) (newRows_ p) (childProcsSent_ p) (inputQueue_ p)
    (onPrompt_ p) (onExit_ p) (controlCharsPattern_ p) (promptPattern_ p).

Definition with_interrupt (b : bool) (p : t) : t :=
  mk (command_ p) (program_ p) (args_ p) (options_ p) (procInfo_ p) b
    (newCols_ p) (newRows_ p) (childProcsSent_ p) (inputQueue_ p)
    (onPrompt_ p) (onExit_ p) (controlCharsPattern_ p) (promptPattern_ p).

Definition with_size (c r : Z) (p : t) : t :=
  mk (command_ p) (program_ p) (args_ p) (options_ p) (procInfo_ p)
    (interrupt_ p) c r (childProcsSent_ p) (inputQueue_ p)
    (onPrompt_ p) (onExit_ p) (controlCharsPattern_ p) (promptPattern_ p).

Definition with_childProcsSent (b : bool) (p : t) : t :=
  mk (command_ p) (program_ p) (args_ p) (options_ p) (procInfo_ p)
    (interrupt_ p) (newCols_ p) (newRows_ p) b (inputQueue_ p)
    (onPrompt_ p) (onExit_ p) (controlCharsPattern_ p) (promptPattern_ p).

Definition with_inputQueue (q : list Input.t) (p : t) : t :=
  mk (command_ p) (program_ p) (args_ p) (options_ p) (procInfo_ p)
    (interrupt_ p) (newCols_ p) (newRows_ p) (childProcsSent_ p) q
    (onPrompt_ p) (onExit_ p) (controlCharsPattern_ p) (promptPattern_ p).

Definition with_onPrompt (h : option PromptHandler) (p : t) : t :=
  mk (command_ p) (program_ p) (args_ p) (options_ p) (procInfo_ p)
    (interrupt_ p) (newCols_ p) (newRows_ p) (childProcsSent_ p)
    (inputQueue_ p) h (onExit_ p) (controlCharsPattern_ p) (promptPattern_ p).

Definition with_onExit (slots : list ExitSlot) (p : t) : t :=
  mk (command_ p) (program_ p) (args_ p) (options_ p) (procInfo_ p)
    (interrupt_ p) (newCols_ p) (newRows_ p) (childProcsSent_ p)
    (inputQueue_ p) (onPrompt_ p) slots (controlCharsPattern_ p)
    (promptPattern_ p).

Definition with_patterns (cc pp : regex) (p : t) : t :=
  mk (command_ p) (program_ p) (args_ p) (options_ p) (procInfo_ p)
    (interrupt_ p) (newCols_ p) (newRows_ p) (childProcsSent_ p)
    (inputQueue_ p) (onPrompt_ p) (onExit_ p) cc pp.

Definition handle (p : t) : string := handle_ (procInfo_ p).
Definition isStarted (p : t) : bool := isStarted_ (procInfo_ p).
Definition interactionMode (p : t) : InteractionMode :=
  interactionMode_ (procInfo_ p).

(** [boost::regex("[\\r\\b]")]: a carriage return or a backspace. *)
Definition controlCharsPattern : regex :=
  Class (fun c => Ascii.eqb c cr || Ascii.eqb c bs).

(** [boost::regex("^(.+)[\\W_]( +)$")]. The dot matches any character
    under the default match flags; [^] and [$] hold at the two ends of the
    input, which is where [regex_match] puts them. *)
Definition promptPattern : regex :=
  Seq (Plus anychar)
      (Seq (Class (fun c => negb (is_word c) || is_underscore c))
           (Plus (Class (fun c => Ascii.eqb c sp)))).

Definition regexInit (p : t) : t :=
  with_patterns controlCharsPattern promptPattern p.

(** The three constructors. [fresh] is the handle the generator would hand
    out, used by [ensureHandle] where the entry has none. The branch of
    [commonInit] compiled where [_WIN32] is not defined is the one
    modelled. *)
Definition commonInit `{Host} (fresh : string) (p : t) : t :=
  let p := regexInit p in
  let p := with_procInfo (Info.ensureHandle fresh (procInfo_ p)) p in
  let p := with_options
             (Options.with_redirectStdErrToStdOut true (options_ p)) p in
  let p :=
    match interactionMode p with
    | InteractionNever => p
    | _ =>
        let o := options_ p in
        let o := Options.with_pseudoterminal (Some (cols o, rows o)) o in
        let o := match environment o with
                 | Some _ => o
                 | None => Options.with_environment (Some systemEnvironment) o
                 end in
        let o := Options.with_environment
                   (Some (Options.setenv (default [] (environment o)) "TERM"
                            (if smartTerminal o then kSmartTerm else kDumbTerm)))
                   o in
        with_options o p
    end in
  with_procInfo (Info.appendToOutputBuffer (str1 lf) (procInfo_ p)) p.

Definition new_fromInfo (procInfo : ConsoleProcessInfo) : t :=
  let p := mk "" "" [] Options.default procInfo false (-1) (-1) false []
              None [] Never Never in
  let p := regexInit p in
  with_procInfo (Info.appendToOutputBuffer (str1 lf) (procInfo_ p)) p.

Definition new_command `{Host} (fresh : string) (command : string)
    (options : ProcessOptions) (procInfo : ConsoleProcessInfo) : t :=
  commonInit fresh
    (mk command "" [] options procInfo false (-1) (-1) false [] None []
        Never Never).

Definition new_program `{Host} (fresh : string) (program : string)
    (args : list string) (options : ProcessOptions)
    (procInfo : ConsoleProcessInfo) : t :=
  commonInit fresh
    (mk "" program args options procInfo false (-1) (-1) false [] None []
        Never Never).

Definition bufferedOutput (p : t) : string :=
  if smartTerminal (options_ p) then ""
  else Info.bufferedOutput (procInfo_ p).

Definition setPromptHandler (onPrompt : PromptHandler) (p : t) : t :=
  with_onPrompt (Some onPrompt) p.

(** Which of [runCommand], [runProgram] and [runTerminal] [start] calls. *)
Definition launchRequest (p : t) : Launch :=
  if negb (String.eqb (command_ p) "") then
    RunCommand (command_ p) (options_ p)
  else if negb (String.eqb (program_ p) "") then
    RunProgram (program_ p) (args_ p) (options_ p)
  else RunTerminal (options_ p).

Definition start `{Host} (p : t) (e : Env) : Error * t * Env :=
  if isStarted p then (Success, p, e)
  else
    let request := launchRequest p in
    let error := launchOutcome (supervisorCalls e) request in
    let e := supervisorCall request e in
    if negb (isError error)
    then (error, with_procInfo (Info.setIsStarted true (procInfo_ p)) p, e)
    else (error, p, e).

Definition enqueInput (input : Input.t) (p : t) : t :=
  with_inputQueue (inputQueue_ p ++ [input]) p.

Definition interrupt (p : t) : t := with_interrupt true p.

Definition resize (c r : Z) (p : t) : t := with_size c r p.

(** [getLogFilePath]: the file is named by the handle. *)
Definition getLogFilePath (p : t) (e : Env) : Error * string :=
  match FS.ensureDirectory (fileSystem e) with
  | Success => (Success, handle p)
  | err => (err, "")
  end.

Definition deleteLogFile (p : t) (e : Env) : Env :=
  match getLogFilePath p e with
  | (Success, log) =>
      with_fileSystem (snd (FS.removeIfExists log (fileSystem e))) e
  | _ => e
  end.

Definition getSavedBuffer (p : t) (e : Env) : string :=
  match getLogFilePath p e with
  | (Success, log) =>
      if negb (FS.exists_ log (fileSystem e)) then ""
      else snd (FS.readStringFromFile log (fileSystem e))
  | _ => ""
  end.

Definition appendToOutputBuffer (str : string) (p : t) (e : Env) : t * Env :=
  if terminalSequence_ (procInfo_ p) =? kNoTerminal then
    (with_procInfo (Info.appendToOutputBuffer str (procInfo_ p)) p, e)
  else
    match getLogFilePath p e with
    | (Success, log) =>
        (p, with_fileSystem (snd (FS.appendToFile log str (fileSystem e))) e)
    | _ => (p, e)
    end.

(** What the output storage of a session holds: the embedded buffer of a
    modal console, the log file named by the handle for a terminal tab. *)
Definition storedOutput (p : t) (e : Env) : string :=
  if terminalSequence_ (procInfo_ p) =? kNoTerminal
  then Info.bufferedOutput (procInfo_ p)
  else default "" (files (fileSystem e) !! handle p).

(** Whether an append reaches the storage: always for the embedded
    buffer; for the log file when the directory can be had and the file
    written. *)
Definition storageInOrder (p : t) (e : Env) : bool :=
  (terminalSequence_ (procInfo_ p) =? kNoTerminal)
  || (dirAvailable (fileSystem e) && writable (fileSystem e)).

(** What appending to the output storage leaves alone: in the process,
    everything but the embedded buffer; outside it, everything but the
    files. *)
Definition sameSession (p p' : t) : Prop :=
  options_ p' = options_ p
  /\ handle p' = handle p
  /\ maxOutputLines_ (procInfo_ p') = maxOutputLines_ (procInfo_ p)
  /\ terminalSequence_ (procInfo_ p') = terminalSequence_ (procInfo_ p)
  /\ isStarted p' = isStarted p
  /\ interrupt_ p' = interrupt_ p
  /\ inputQueue_ p' = inputQueue_ p
  /\ onPrompt_ p' = onPrompt_ p
  /\ controlCharsPattern_ p' = controlCharsPattern_ p
  /\ promptPattern_ p' = promptPattern_ p.

Definition sameChannels (e e' : Env) : Prop :=
  clientEvents e' = clientEvents e
  /\ opsCalls e' = opsCalls e
  /\ supervisorCalls e' = supervisorCalls e
  /\ passwordManager e' = passwordManager e
  /\ dirAvailable (fileSystem e') = dirAvailable (fileSystem e)
  /\ readable (fileSystem e') = readable (fileSystem e)
  /\ writable (fileSystem e') = writable (fileSystem e).

(** Several appends in a row. *)
Fixpoint appendAll (l : list string) (p : t) (e : Env) : t * Env :=
  match l with
  | [] => (p, e)
  | s :: rest =>
      let '(p, e) := appendToOutputBuffer s p e in appendAll rest p e
  end.

Definition enqueOutputEvent (output : string) (error : bool) (p : t) (e : Env)
    : t * Env :=
  let '(p, e) := appendToOutputBuffer output p e in
  let trimmedOutput :=
    trimLeadingLines (maxOutputLines_ (procInfo_ p)) output in
  (p, enqueClientEvent (ConsoleProcessOutput (handle p) error trimmedOutput) e).

Definition handleConsolePrompt (prompt : string) (p : t) (e : Env) : t * Env :=
  let surface :=
    enqueClientEvent (ConsoleProcessPrompt (handle p) prompt) in
  match onPrompt_ p with
  | Some onPrompt =>
      let '(answer, pm) := onPrompt prompt (passwordManager e) in
      let e := with_passwordManager pm e in
      match answer with
      | Some input =>
          if negb (Input.empty input) then (enqueInput input p, e)
          else (p, opCall Terminate e)
      | None => (p, surface e)
      end
  | None => (p, surface e)
  end.

Definition maybeConsolePrompt (output : string) (p : t) (e : Env) : t * Env :=
  let '(p, e) :=
    if regex_search output (controlCharsPattern_ p)
    then enqueOutputEvent output false p e
    else (p, e) in
  if negb (regex_match output (promptPattern_ p))
  then enqueOutputEvent output false p e
  else handleConsolePrompt output p e.

Definition onStdout `{Host} (output : string) (p : t) (e : Env) : t * Env :=
  if smartTerminal (options_ p) then enqueOutputEvent output false p e
  else
    let posixOutput := convertLineEndingsPosix output in
    if ends_with posixOutput (str1 lf) then
      enqueOutputEvent posixOutput false p e
    else
      match find_last_of posixOutput (String lf (str1 ff)) with
      | Some lastLoc =>
          let '(p, e) :=
            enqueOutputEvent (substr posixOutput 0 lastLoc) false p e in
          maybeConsolePrompt (substr_from posixOutput (lastLoc + 1)) p e
      | None => maybeConsolePrompt posixOutput p e
      end.

(** The scheduler delivering several chunks, one after the other. *)
Fixpoint onStdoutAll `{Host} (chunks : list string) (p : t) (e : Env)
    : t * Env :=
  match chunks with
  | [] => (p, e)
  | output :: rest =>
      let '(p, e) := onStdout output p e in onStdoutAll rest p e
  end.

(** One turn of the loop of [onContinue] that empties the input queue. *)
Definition processInput (input : Input.t) (p : t) (e : Env) : t * Env :=
  if Input.interrupt input then
    let e := opCall PtyInterrupt e in
    if Input.echoInput input then appendToOutputBuffer "^C" p e else (p, e)
  else
    let inputText := Input.text input in
    let e := opCall (WriteToStdin inputText false) e in
    if negb (smartTerminal (options_ p)) then
      if Input.echoInput input then appendToOutputBuffer inputText p e
      else appendToOutputBuffer (str1 lf) p e
    else (p, e).

Fixpoint drainInputQueue (queue : list Input.t) (p : t) (e : Env) : t * Env :=
  match queue with
  | [] => (with_inputQueue [] p, e)
  | input :: rest =>
      let '(p, e) := processInput input (with_inputQueue rest p) e in
      drainInputQueue rest p e
  end.

Definition onContinue (p : t) (e : Env) : bool * t * Env :=
  if interrupt_ p then (false, p, e)
  else
    let '(p, e) := drainInputQueue (inputQueue_ p) p e in
    if negb (newCols_ p =? -1) && negb (newRows_ p =? -1)
    then (true, with_size (-1) (-1) p,
          opCall (PtySetSize (newCols_ p) (newRows_ p)) e)
    else (true, p, e).

Definition onExit (exitCode : Z) (p : t) (e : Env) : t * Env :=
  let p := with_procInfo (Info.setExitCode exitCode (procInfo_ p)) p in
  let e := enqueClientEvent (ConsoleProcessExit (handle p) exitCode) e in
  (p, with_passwordManager
        (fold_left (fun pm slot => slot exitCode pm) (onExit_ p)
           (passwordManager e)) e).

Definition onHasSubprocs (hasSubprocs : bool) (p : t) (e : Env) : t * Env :=
  if negb (Bool.eqb hasSubprocs (hasChildProcs_ (procInfo_ p)))
     || negb (childProcsSent_ p)
  then
    let p := with_procInfo (Info.setHasChildProcs hasSubprocs (procInfo_ p)) p in
    let e := enqueClientEvent
               (TerminalSubprocs (handle p) (hasChildProcs_ (procInfo_ p))) e in
    (with_childProcsSent true p, e)
  else (p, e).

Definition onSuspend `{Host} (p : t) : t :=
  with_procInfo (procInfo_onSuspend (procInfo_ p)) p.

Definition toJson (p : t) : Json := Info.toJson (procInfo_ p).

Definition fromJson (obj : list (string * Json)) : option t :=
  new_fromInfo <$> Info.fromJson obj.

End ConsoleProcess.

(** ** The process table and the functions of the module *)

(** [s_procs] maps a handle to the identity of a process object; [objects]
    is the store the shared pointers point into. Two pointers are the same
    instance when they are the same identity. [handlesGenerated] counts the
    handles the generator has produced. *)
Record World : Type := mkWorld {
  objects : gmap nat ConsoleProcess.t;
  nextObject : nat;
  s_procs : gmap string nat;
  env : Env;
  handlesGenerated : nat
}.

Definition with_objects (o : gmap nat ConsoleProcess.t) (w : World) : World :=
  mkWorld o (nextObject w) (s_procs w) (env w) (handlesGenerated w).

Definition with_s_procs (t : gmap string nat) (w : World) : World :=
  mkWorld (objects w) (nextObject w) t (env w) (handlesGenerated w).

Definition with_env (e : Env) (w : World) : World :=
  mkWorld (objects w) (nextObject w) (s_procs w) e (handlesGenerated w).

(** [boost::shared_ptr<ConsoleProcess> ptr(new ConsoleProcess(...))] *)
Definition allocate (p : ConsoleProcess.t) (w : World) : nat * World :=
  (nextObject w,
   mkWorld (<[nextObject w := p]> (objects w)) (S (nextObject w)) (s_procs w)
     (env w) (handlesGenerated w)).

(** The process an entry of the table points to. *)
Definition find (h : string) (w : World) : option (nat * ConsoleProcess.t) :=
  id ← s_procs w !! h;
  p ← objects w !! id;
  Some (id, p).

(** Iteration over a [std::map] visits the keys in increasing order. *)
Fixpoint insertEntry {A} (x : string * A) (l : list (string * A))
    : list (string * A) :=
  match l with
  | [] => [x]
  | y :: l' =>
      if String.leb (fst x) (fst y) then x :: y :: l'
      else y :: insertEntry x l'
  end.

Definition inKeyOrder {A} (l : list (string * A)) : list (string * A) :=
  foldr insertEntry [] l.

Definition entries (w : World) : list (string * nat) :=
  inKeyOrder (map_to_list (s_procs w)).

Fixpoint serializeEntries `{Host} (suspend : bool) (l : list (string * nat))
    (objs : gmap nat ConsoleProcess.t) : list Json * gmap nat ConsoleProcess.t :=
  match l with
  | [] => ([], objs)
  | (_, id) :: rest =>
      match objs !! id with
      | Some p =>
          let p := if suspend then ConsoleProcess.onSuspend p else p in
          let objs := if suspend then <[id := p]> objs else objs in
          let '(array, objs) := serializeEntries suspend rest objs in
          (ConsoleProcess.toJson p :: array, objs)
      | None => serializeEntries suspend rest objs
      end
  end.

Definition processesAsJson (w : World) : Json :=
  JArr (omap (fun '(_, id) => ConsoleProcess.toJson <$> objects w !! id)
          (entries w)).

Definition serializeConsoleProcs `{Host} (suspend : bool) (w : World)
    : string * World :=
  let '(array, objs) := serializeEntries suspend (entries w) (objects w) in
  (json_write (JArr array), with_objects objs w).

(** The loop of [deserializeConsoleProcs]; [None] stands for the exception
    [get_obj] or [fromJson] raises on an element of the wrong shape. *)
Fixpoint deserializeEntries (procs : list Json) (w : World) : option World :=
  match procs with
  | [] => Some w
  | JObj obj :: rest =>
      match ConsoleProcess.fromJson obj with
      | Some proc =>
          let '(id, w) := allocate proc w in
          deserializeEntries rest
            (with_s_procs (<[ConsoleProcess.handle proc := id]> (s_procs w)) w)
      | None => None
      end
  | _ => None
  end.

Definition deserializeConsoleProcs `{Host} (jsonStr : string) (w : World)
    : option World :=
  if String.eqb jsonStr "" then Some w
  else
    match json_parse jsonStr with
    | None => Some w
    | Some (JArr procs) => deserializeEntries procs w
    | Some _ => None
    end.

Definition saveConsoleProcesses `{Host} (terminatedNormally : bool) (w : World)
    : World :=
  if negb terminatedNormally then w
  else
    let '(contents, w) := serializeConsoleProcs false w in
    with_env
      (with_fileSystem
         (snd (FS.writeStringToFile kConsoleIndex contents
                 (fileSystem (env w))))
         (env w)) w.

(** Advance the generator when [ensureHandle] had to use it. *)
Definition noteHandle (procInfo : ConsoleProcessInfo) (w : World) : World :=
  if String.eqb (handle_ procInfo) ""
  then mkWorld (objects w) (nextObject w) (s_procs w) (env w)
         (S (handlesGenerated w))
  else w.

Definition register `{Host} (proc : ConsoleProcess.t) (w : World)
    : nat * World :=
  let '(ptrProc, w) := allocate proc w in
  let w := with_s_procs (<[ConsoleProcess.handle proc := ptrProc]> (s_procs w)) w in
  (ptrProc, saveConsoleProcesses true w).

(** [ConsoleProcess::create(command, options, procInfo)] *)
Definition create `{Host} (command : string) (options : ProcessOptions)
    (procInfo : ConsoleProcessInfo) (w : World) : nat * World :=
  let options := Options.with_terminateChildren true options in
  let proc :=
    ConsoleProcess.new_command (generateShortenedUuid (handlesGenerated w))
      command options procInfo in
  register proc (noteHandle procInfo w).

(** [ConsoleProcess::create(program, args, options, procInfo)] *)
Definition create_program `{Host} (program : string) (args : list string)
    (options : ProcessOptions) (procInfo : ConsoleProcessInfo) (w : World)
    : nat * World :=
  let options := Options.with_terminateChildren true options in
  let proc :=
    ConsoleProcess.new_program (generateShortenedUuid (handlesGenerated w))
      program args options procInfo in
  register proc (noteHandle procInfo w).

Definition createTerminalProcess `{Host} (options : ProcessOptions)
    (procInfo : ConsoleProcessInfo) (w : World) : nat * World :=
  let command := "" in
  if allowRestart_ procInfo && negb (String.eqb (handle_ procInfo) "") then
    match find (handle_ procInfo) w with
    | Some (pos, p) =>
        if ConsoleProcess.isStarted p then
          (pos, with_objects
                  (<[pos := ConsoleProcess.resize 25 5 p]> (objects w)) w)
        else
          let options := Options.with_terminateChildren true options in
          let proc :=
            ConsoleProcess.new_command
              (generateShortenedUuid (handlesGenerated w))
              command options procInfo in
          register proc (noteHandle procInfo w)
    | None =>
        let options := Options.with_terminateChildren true options in
        let proc :=
          ConsoleProcess.new_command
            (generateShortenedUuid (handlesGenerated w))
            command options procInfo in
        register proc (noteHandle procInfo w)
    end
  else create command options procInfo w.

(** The metadata of an entry that the persisted index carries besides the
    embedded output: handle, caption, title, terminal identity, the two
    flags, the exit code, the output-line limit and the interaction mode. *)
Definition persistedFields (i : ConsoleProcessInfo)
    : string * string * string * Z * bool * bool * option Z * Z
      * InteractionMode :=
  (handle_ i, caption_ i, title_ i, terminalSequence_ i, allowRestart_ i,
   hasChildProcs_ i, exitCode_ i, maxOutputLines_ i, interactionMode_ i).

(** Every entry of the table points to a process object, filed under the
    handle that process has: what [s_procs[proc->handle()] = proc]
    establishes. *)
Definition tableWellFormed (w : World) : bool :=
  forallb
    (fun '(h, id) =>
       match objects w !! id with
       | Some p => String.eqb (ConsoleProcess.handle p) h
       | None => false
       end)
    (map_to_list (s_procs w)).

(** The invariant the functions of this module keep: every entry points
    to an allocated process object that has the handle it is filed
    under. *)
Definition tableInvariant (w : World) : Prop :=
  forall h id,
    s_procs w !! h = Some id ->
    (id < nextObject w)%nat
    /\ exists p, objects w !! id = Some p /\ ConsoleProcess.handle p = h.

(** ** The remote calls, after their parameters are read *)

Definition invalid_argument : Error := SystemError "invalid_argument".

Definition procStart `{Host} (h : string) (w : World) : Error * World :=
  match find h w with
  | Some (pos, p) =>
      let '(error, p, e) := ConsoleProcess.start p (env w) in
      (error, with_env e (with_objects (<[pos := p]> (objects w)) w))
  | None => (invalid_argument, w)
  end.

Definition procInterrupt (h : string) (w : World) : Error * World :=
  match find h w with
  | Some (pos, p) =>
      (Success,
       with_objects (<[pos := ConsoleProcess.interrupt p]> (objects w)) w)
  | None => (invalid_argument, w)
  end.

Definition procReap `{Host} (h : string) (w : World) : Error * World :=
  match find h w with
  | Some (pos, p) =>
      let w := with_env (ConsoleProcess.deleteLogFile p (env w)) w in
      let w := with_s_procs (delete h (s_procs w)) w in
      (Success, saveConsoleProcesses true w)
  | None => (invalid_argument, w)
  end.

Definition procSetSize (h : string) (c r : Z) (w : World) : Error * World :=
  match find h w with
  | Some (pos, p) =>
      (Success,
       with_objects (<[pos := ConsoleProcess.resize c r p]> (objects w)) w)
  | None => (invalid_argument, w)
  end.

Definition procEraseBuffer (h : string) (w : World) : Error * World :=
  match find h w with
  | Some (pos, p) =>
      (Success, with_env (ConsoleProcess.deleteLogFile p (env w)) w)
  | None => (invalid_argument, w)
  end.

(** The second component is the result set on the response. *)
Definition procGetBuffer (h : string) (w : World) : Error * option string :=
  match find h w with
  | Some (pos, p) => (Success, Some (ConsoleProcess.getSavedBuffer p (env w)))
  | None => (invalid_argument, None)
  end.

(** [PasswordManager::attach]: the two closures bind the handle the process
    has at this moment. *)
Definition PasswordManager_attach (showRememberOption : bool)
    (p : ConsoleProcess.t) : ConsoleProcess.t :=
  let h := ConsoleProcess.handle p in
  let p :=
    ConsoleProcess.setPromptHandler
      (fun prompt pm =>
         PasswordManager.handlePrompt h prompt showRememberOption pm) p in
  ConsoleProcess.with_onExit
    (ConsoleProcess.onExit_ p
       ++ [fun exitCode pm => PasswordManager.onExit h exitCode pm]) p.

(** ** More of the module: the remaining remote calls and the loading of
    the persisted index *)

(** [procSetCaption]: the caption is set and the index is saved. *)
Definition procSetCaption `{Host} (h caption : string) (w : World)
    : Error * World :=
  match find h w with
  | None => (invalid_argument, w)
  | Some (pos, p) =>
      let p := ConsoleProcess.with_procInfo
                 (Info.setCaption caption (ConsoleProcess.procInfo_ p)) p in
      let w := with_objects (<[pos := p]> (objects w)) w in
      (Success, saveConsoleProcesses true w)
  end.

(** [procSetTitle]: the title is set; the index is not saved. *)
Definition procSetTitle (h title : string) (w : World) : Error * World :=
  match find h w with
  | None => (invalid_argument, w)
  | Some (pos, p) =>
      let p := ConsoleProcess.with_procInfo
                 (Info.setTitle title (ConsoleProcess.procInfo_ p)) p in
      (Success, with_objects (<[pos := p]> (objects w)) w)
  end.

(** What [procWriteStdin] needs of the build and of the session options:
    whether the text arrives encrypted (the file is built with
    [RSTUDIO_SERVER] and the program mode is the server's), and
    [core::system::crypto::rsaPrivateDecrypt]. *)
Record Crypto : Type := mkCrypto {
  serverMode : bool;
  rsaPrivateDecrypt : string -> Error * string
}.

(** [procWriteStdin], once the handle and the input object are read from
    the parameters. *)
Definition procWriteStdin (crypto : Crypto) (h : string) (input : Input.t)
    (w : World) : Error * World :=
  match find h w with
  | Some (pos, p) =>
      let decrypted :=
        if serverMode crypto && negb (Input.interrupt input)
        then rsaPrivateDecrypt crypto (Input.text input)
        else (Success, Input.text input) in
      match decrypted with
      | (Success, txt) =>
          let input :=
            Input.mk (Input.interrupt input) txt (Input.echoInput input) in
          (Success,
           with_objects
             (<[pos := ConsoleProcess.enqueInput input p]> (objects w)) w)
      | (error, _) => (error, w)
      end
  | None => (invalid_argument, w)
  end.

(** Modelled from the spec: [FilePath::children], the names in the scratch
    directory; it fails when the directory cannot be had. *)
Definition FS_children (fs : FileSystem) : Error * list string :=
  if dirAvailable fs then (Success, (map_to_list (files fs)).*1)
  else (SystemError "children", []).

(** Modelled from the spec: [FilePath::remove]. *)
Definition FS_remove (name : string) (fs : FileSystem) : Error * FileSystem :=
  if writable fs then (Success, FS.with_files (delete name (files fs)) fs)
  else (SystemError "remove", fs).

(** The body of the loop of [loadConsoleProcesses] over the children of the
    scratch directory; [isDirectory] tells which names are subfolders. *)
Definition deleteIfOrphan (isDirectory : string -> bool) (child : string)
    (w : World) : World :=
  if String.eqb child kConsoleIndex || isDirectory child then w
  else
    match s_procs w !! child with
    | None =>
        with_env
          (with_fileSystem (snd (FS_remove child (fileSystem (env w))))
             (env w)) w
    | Some _ => w
    end.

(** [loadConsoleProcesses]; [None] is the exception
    [deserializeConsoleProcs] may raise. *)
Definition loadConsoleProcesses `{Host} (isDirectory : string -> bool)
    (w : World) : option World :=
  if negb (FS.exists_ kConsoleIndex (fileSystem (env w))) then Some w
  else
    match FS.readStringFromFile kConsoleIndex (fileSystem (env w)) with
    | (Success, contents) =>
        match deserializeConsoleProcs contents w with
        | Some w =>
            match FS_children (fileSystem (env w)) with
            | (Success, children) =>
                Some (fold_left
                        (fun w child => deleteIfOrphan isDirectory child w)
                        children w)
            | _ => Some w
            end
        | None => None
        end
    | _ => Some w
    end.

(** ** Vocabulary for the statements about a tick *)

(** The process operation a queued input stands for. *)
Definition opOf (input : Input.t) : OpCall :=
  if Input.interrupt input then PtyInterrupt
  else WriteToStdin (Input.text input) false.

(** What a queued input adds to the output storage, on a smart terminal
    or another. *)
Definition echoOf (smart : bool) (input : Input.t) : string :=
  if Input.interrupt input then
    if Input.echoInput input then "^C" else ""
  else if smart then ""
  else if Input.echoInput input then Input.text input
  else str1 lf.

(** Whether a requested size is sent at the next tick. *)
Definition sizePending (p : ConsoleProcess.t) : bool :=
  negb (ConsoleProcess.newCols_ p =? -1)
  && negb (ConsoleProcess.newRows_ p =? -1).

(** The first value an environment block gives a variable. *)
Fixpoint lookupenv (env : list (string * string)) (name : string)
    : option string :=
  match env with
  | [] => None
  | (n, v) :: rest => if String.eqb n name then Some v else lookupenv rest name
  end.

(** A character that ends a line for [onStdout]: line feed or form feed. *)
Definition isLineBreak (c : ascii) : bool :=
  Ascii.eqb c lf || Ascii.eqb c ff.

(** The names [loadConsoleProcesses] does not delete: the index, the
    subfolders, and the handles in the table. *)
Definition spared (isDirectory : string -> bool) (w : World) (name : string)
    : bool :=
  String.eqb name kConsoleIndex || isDirectory name
  || bool_decide (is_Some (s_procs w !! name)).

(** ** A concrete host

    A JSON writer and parser, a handle generator, a line-ending conversion
    and a supervisor, to run the functions above on concrete inputs. *)

Module Sample.

Definition dq : ascii := ascii_of_nat 34.
Definition backslash : ascii := ascii_of_nat 92.

Fixpoint escape (w : list ascii) : list ascii :=
  match w with
  | [] => []
  | c :: w' =>
      if Ascii.eqb c dq || Ascii.eqb c backslash
      then backslash :: c :: escape w'
      else c :: escape w'
  end.

Definition quote (s : string) : string :=
  String dq (string_of_list_ascii (escape (chars s))) +:+ str1 dq.

Definition sepBy (sep : string) (l : list string) : string :=
  match l with
  | [] => ""
  | x :: rest => fold_left (fun acc y => acc +:+ sep +:+ y) rest x
  end.

Fixpoint write (v : Json) : string :=
  match v with
  | JNull => "null"
  | JBool true => "true"
  | JBool false => "false"
  | JInt z => NilZero.string_of_int (Z.to_int z)
  | JStr s => quote s
  | JArr l => "[" +:+ sepBy "," (List.map write l) +:+ "]"
  | JObj l =>
      "{" +:+ sepBy "," (List.map (fun kv => quote (fst kv) +:+ ":" +:+ write (snd kv)) l)
          +:+ "}"
  end.

Fixpoint stripPrefix (p w : list ascii) : option (list ascii) :=
  match p, w with
  | [], _ => Some w
  | c :: p', d :: w' => if Ascii.eqb c d then stripPrefix p' w' else None
  | _ :: _, [] => None
  end.

Fixpoint parseString (w acc : list ascii) : option (string * list ascii) :=
  match w with
  | [] => None
  | c :: w' =>
      if Ascii.eqb c dq then Some (string_of_list_ascii (rev acc), w')
      else if Ascii.eqb c backslash then
        match w' with
        | [] => None
        | d :: w'' => parseString w'' (d :: acc)
        end
      else parseString w' (c :: acc)
  end.

Definition isNumberChar (c : ascii) : bool :=
  is_digit c || Ascii.eqb c "-"%char.

Fixpoint spanNumber (w : list ascii) : list ascii * list ascii :=
  match w with
  | c :: w' =>
      if isNumberChar c
      then let '(ds, r) := spanNumber w' in (c :: ds, r)
      else ([], w)
  | [] => ([], [])
  end.

Definition parseNumber (w : list ascii) : option (Json * list ascii) :=
  let '(ds, r) := spanNumber w in
  match NilZero.int_of_string (string_of_list_ascii ds) with
  | Some i => Some (JInt (Z.of_int i), r)
  | None => None
  end.

Section Sequences.
Variable parseValue : list ascii -> option (Json * list ascii).

Fixpoint parseElements (n : nat) (w : list ascii)
    : option (list Json * list ascii) :=
  match n with
  | O => None
  | S n' =>
      match parseValue w with
      | Some (v, c :: r) =>
          if Ascii.eqb c ","%char then
            match parseElements n' r with
            | Some (vs, r') => Some (v :: vs, r')
            | None => None
            end
          else if Ascii.eqb c "]"%char then Some ([v], r)
          else None
      | _ => None
      end
  end.

Fixpoint parseMembers (n : nat) (w : list ascii)
    : option (list (string * Json) * list ascii) :=
  match n with
  | O => None
  | S n' =>
      match w with
      | q :: w1 =>
          if Ascii.eqb q dq then
            match parseString w1 [] with
            | Some (k, colon :: w2) =>
                if Ascii.eqb colon ":"%char then
                  match parseValue w2 with
                  | Some (v, c :: r) =>
                      if Ascii.eqb c ","%char then
                        match parseMembers n' r with
                        | Some (kvs, r') => Some ((k, v) :: kvs, r')
                        | None => None
                        end
                      else if Ascii.eqb c "}"%char then Some ([(k, v)], r)
                      else None
                  | _ => None
                  end
                else None
            | _ => None
            end
          else None
      | [] => None
      end
  end.
End Sequences.

Fixpoint parseValue (fuel : nat) (w : list ascii) : option (Json * list ascii) :=
  match fuel with
  | O => None
  | S fuel' =>
      match w with
      | [] => None
      | c :: r =>
          if Ascii.eqb c dq then
            match parseString r [] with
            | Some (s, r') => Some (JStr s, r')
            | None => None
            end
          else if Ascii.eqb c "["%char then
            match r with
            | d :: r' =>
                if Ascii.eqb d "]"%char then Some (JArr [], r')
                else match parseElements (parseValue fuel') fuel' r with
                     | Some (vs, r'') => Some (JArr vs, r'')
                     | None => None
                     end
            | [] => None
            end
          else if Ascii.eqb c "{"%char then
            match r with
            | d :: r' =>
                if Ascii.eqb d "}"%char then Some (JObj [], r')
                else match parseMembers (parseValue fuel') fuel' r with
                     | Some (kvs, r'') => Some (JObj kvs, r'')
                     | None => None
                     end
            | [] => None
            end
          else if isNumberChar c then parseNumber w
          else
            match stripPrefix (chars "null") w with
            | Some r' => Some (JNull, r')
            | None =>
                match stripPrefix (chars "true") w with
                | Some r' => Some (JBool true, r')
                | None =>
                    match stripPrefix (chars "false") w with
                    | Some r' => Some (JBool false, r')
                    | None => None
                    end
                end
            end
      end
  end.

Definition parse (s : string) : option Json :=
  match parseValue (S (String.length s)) (chars s) with
  | Some (v, []) => Some v
  | _ => None
  end.

(** Turns each CR LF into LF and leaves every other character alone. *)
Fixpoint crlf_to_lf (w : list ascii) : list ascii :=
  match w with
  | c :: w' =>
      match w' with
      | d :: _ =>
          if Ascii.eqb c cr && Ascii.eqb d lf then crlf_to_lf w'
          else c :: crlf_to_lf w'
      | [] => [c]
      end
  | [] => []
  end.

(** A supervisor that cannot launch the program "/missing" and launches
    everything else. *)
Definition outcome (history : list Launch) (l : Launch) : Error :=
  match l with
  | RunProgram "/missing" _ _ => SystemError "no such file"
  | _ => Success
  end.

#[local] Instance host : Host := {|
  json_write := write;
  json_parse := parse;
  generateShortenedUuid n := "H" +:+ NilZero.string_of_uint (Nat.to_uint n);
  convertLineEndingsPosix s := string_of_list_ascii (crlf_to_lf (chars s));
  launchOutcome := outcome;
  systemEnvironment := [("PATH", "/usr/bin")];
  kSmartTerm := "xterm-256color";
  kDumbTerm := "dumb";
  procInfo_onSuspend i := i
|}.

(** A password manager whose pattern accepts the texts with "assword" in
    them, whose user types "typed" and ticks the remember box when it is
    shown, and whose cache holds one password, asked for by process "A". *)
Definition passwordPattern : regex :=
  Seq (Star anychar) (Seq (literal (chars "assword")) (Star anychar)).

Definition askUser (p : string) (showRememberOption : bool)
    : option (string * bool) :=
  Some ("typed", showRememberOption).

Definition secretOfA : PasswordManager.CachedPassword :=
  PasswordManager.mkCachedPassword "A" "Password: " "secret" true.

Definition pm0 : PasswordManager.t :=
  PasswordManager.mk passwordPattern askUser [secretOfA] [].

(** A scratch directory in working order and empty, and nothing queued. *)
Definition env0 : Env :=
  mkEnv (mkFS true true true ∅) [] [] [] pm0.

Definition options0 : ProcessOptions :=
  mkOptions false false false true 80 25 None None.

Definition smartOptions : ProcessOptions :=
  mkOptions true false false true 80 25 None None.

(** A modal console ("M1") and a terminal tab ("T1"). *)
Definition modalInfo : ConsoleProcessInfo :=
  mkInfo "M1" "svn update" "" kNoTerminal false false None 1000
    InteractionPossible "" false.

Definition terminalInfo : ConsoleProcessInfo :=
  mkInfo "T1" "Terminal 1" "bash" 1 true false None 1000
    InteractionAlways "" false.

Definition modalProc : ConsoleProcess.t :=
  ConsoleProcess.new_command "H0" "svn update" options0 modalInfo.

Definition terminalProc : ConsoleProcess.t :=
  ConsoleProcess.new_command "H0" "" options0 terminalInfo.

Definition smartProc : ConsoleProcess.t :=
  ConsoleProcess.new_command "H0" "" smartOptions terminalInfo.

Definition missingProc : ConsoleProcess.t :=
  ConsoleProcess.new_program "H0" "/missing" [] options0 modalInfo.

(** A table with the terminal tab, started, and the modal console. *)
Definition startedTerminal : ConsoleProcess.t :=
  ConsoleProcess.with_procInfo
    (Info.setIsStarted true (ConsoleProcess.procInfo_ terminalProc))
    terminalProc.

Definition world0 : World :=
  mkWorld (<[0%nat := startedTerminal]> (<[1%nat := modalProc]> ∅)) 2
    (<["T1" := 0%nat]> (<["M1" := 1%nat]> ∅)) env0 0.

(** The state of a host that has just started: nothing in the table. *)
Definition emptyWorld : World := mkWorld ∅ 0 ∅ env0 0.

End Sample.

(** ** More concrete data *)

Module Sample2.

(** A server build whose decryption strips a leading "enc:" and fails on
    anything else. *)
Definition decrypt (s : string) : Error * string :=
  match s with
  | String "e" (String "n" (String "c" (String ":" rest))) => (Success, rest)
  | _ => (SystemError "decrypt", "")
  end.

Definition serverCrypto : Crypto := mkCrypto true decrypt.

Definition desktopCrypto : Crypto := mkCrypto false decrypt.

(** No name in the scratch directory is a subfolder. *)
Definition noDirectories (name : string) : bool := false.

(** The modal console with an interrupt and a line of text queued, both
    with echo. *)
Definition busyProc : ConsoleProcess.t :=
  ConsoleProcess.enqueInput (Input.of_text ("ls" +:+ str1 lf) true)
    (ConsoleProcess.enqueInput (Input.mk true "" true) Sample.modalProc).

(** A scratch directory that cannot be had. *)
Definition brokenEnv : Env :=
  mkEnv (mkFS false true true ∅) [] [] [] Sample.pm0.

(** A password manager with an empty cache. *)
Definition pmEmpty : PasswordManager.t :=
  PasswordManager.mk Sample.passwordPattern Sample.askUser [] [].

(** The table after one terminal was created in an empty state. *)
Definition createdWorld : World :=
  snd (@create Sample.host "" Sample.options0 Sample.terminalInfo
         Sample.emptyWorld).

(** A scratch directory with an index that lists the terminal "T1", the
    log of "T1" and the log of a process that is not in the index. *)
Definition diskWorld : World :=
  mkWorld ∅ 0 ∅
    (mkEnv
       (mkFS true true true
          (<[kConsoleIndex := Sample.write (JArr [Info.toJson Sample.terminalInfo])]>
             (<["T1" := "log of T1"]> (<["GONE" := "log of nobody"]> ∅))))
       [] [] [] Sample.pm0)
    0.

End Sample2.

(** * Properties *)

(** ** Regular expressions: the matcher computes the language *)

Section RegexFacts.

Lemma Matches_Never_inv (w : list ascii) : Matches Never w -> False.
Proof. inversion 1. Qed.

Lemma Matches_Empty_inv (w : list ascii) : Matches Empty w -> w = [].
Proof. now inversion 1. Qed.

Lemma Matches_Class_inv (p : ascii -> bool) (w : list ascii) :
  Matches (Class p) w -> exists c, w = [c] /\ p c = true.
Proof. inversion 1; subst; eauto. Qed.

Lemma Matches_Seq_inv (r1 r2 : regex) (w : list ascii) :
  Matches (Seq r1 r2) w ->
  exists w1 w2, w = (w1 ++ w2)%list /\ Matches r1 w1 /\ Matches r2 w2.
Proof. inversion 1; subst; eauto. Qed.

Lemma Matches_Alt_inv (r1 r2 : regex) (w : list ascii) :
  Matches (Alt r1 r2) w -> Matches r1 w \/ Matches r2 w.
Proof. inversion 1; subst; auto. Qed.

Lemma nullable_Matches (r : regex) : nullable r = true <-> Matches r [].
Proof.
  induction r as [| |p|r1 IH1 r2 IH2|r1 IH1 r2 IH2|r IH]; simpl.
  - split; [discriminate|]. intros []%Matches_Never_inv.
  - split; [constructor|reflexivity].
  - split; [discriminate|]. intros (c & Hc & _)%Matches_Class_inv.
    discriminate.
  - rewrite andb_true_iff, IH1, IH2. split.
    + intros [H1 H2]. exact (MSeq _ _ [] [] H1 H2).
    + intros (w1 & w2 & Heq & H1 & H2)%Matches_Seq_inv.
      symmetry in Heq. apply app_eq_nil in Heq as [-> ->]. now split.
  - rewrite orb_true_iff, IH1, IH2. split.
    + intros [H1|H2]; [now apply MAltL|now apply MAltR].
    + apply Matches_Alt_inv.
  - split; [constructor|reflexivity].
Qed.

Lemma deriv_sound (c : ascii) (r : regex) (w : list ascii) :
  Matches (deriv c r) w -> Matches r (c :: w).
Proof.
  revert w.
  induction r as [| |p|r1 IH1 r2 IH2|r1 IH1 r2 IH2|r IH]; simpl; intros w Hm.
  - now apply Matches_Never_inv in Hm.
  - now apply Matches_Never_inv in Hm.
  - destruct (p c) eqn:Hp; [|now apply Matches_Never_inv in Hm].
    apply Matches_Empty_inv in Hm. subst w. now constructor.
  - assert (Hseq : Matches (Seq (deriv c r1) r2) w ->
                   Matches (Seq r1 r2) (c :: w)).
    { intros (w1 & w2 & -> & H1 & H2)%Matches_Seq_inv.
      exact (MSeq _ _ (c :: w1) w2 (IH1 _ H1) H2). }
    destruct (nullable r1) eqn:Hn; [|now apply Hseq].
    apply Matches_Alt_inv in Hm as [Hl|Hr]; [now apply Hseq|].
    apply nullable_Matches in Hn.
    exact (MSeq _ _ [] (c :: w) Hn (IH2 _ Hr)).
  - apply Matches_Alt_inv in Hm as [Hl|Hr]; [apply MAltL|apply MAltR]; auto.
  - apply Matches_Seq_inv in Hm as (w1 & w2 & -> & H1 & H2).
    exact (MStarCons _ (c :: w1) w2 (IH _ H1) H2).
Qed.

Lemma deriv_complete (c : ascii) (r : regex) (w : list ascii) :
  Matches r (c :: w) -> Matches (deriv c r) w.
Proof.
  intros Hm. remember (c :: w) as cw eqn:E. revert c w E.
  induction Hm as [|p c' Hp|r1 r2 w1 w2 H1 IH1 H2 IH2|r1 r2 w' H1 IH1
                  |r1 r2 w' H2 IH2|r|r w1 w2 H1 IH1 H2 IH2];
    intros c w E; simpl.
  - discriminate.
  - injection E as -> <-. rewrite Hp. constructor.
  - destruct w1 as [|c1 w1]; simpl in E.
    + subst w2. apply nullable_Matches in H1. rewrite H1.
      apply MAltR. now apply IH2.
    + injection E as -> <-.
      destruct (nullable r1); [apply MAltL|]; constructor; auto.
  - apply MAltL. now apply IH1.
  - apply MAltR. now apply IH2.
  - discriminate.
  - destruct w1 as [|c1 w1]; simpl in E.
    + now apply IH2.
    + injection E as -> <-. constructor; auto.
Qed.

Lemma accepts_Matches (r : regex) (w : list ascii) :
  accepts r w = true <-> Matches r w.
Proof.
  revert r. induction w as [|c w IH]; intros r; simpl.
  - apply nullable_Matches.
  - rewrite IH. split; [apply deriv_sound|apply deriv_complete].
Qed.

Lemma Matches_star_any (w : list ascii) : Matches (Star anychar) w.
Proof.
  induction w as [|c w IH]; [constructor|].
  apply (MStarCons _ [c] w); [now constructor|exact IH].
Qed.

Lemma Matches_star_class (p : ascii -> bool) (w : list ascii) :
  Matches (Star (Class p)) w <-> forallb p w = true.
Proof.
  split.
  - intros Hm. remember (Star (Class p)) as r eqn:E.
    induction Hm as [| | | | |r'|r' w1 w2 H1 _ H2 IH2]; try discriminate.
    + reflexivity.
    + injection E as ->.
      apply Matches_Class_inv in H1 as (c & -> & Hc). simpl.
      now rewrite Hc, IH2.
  - induction w as [|c w IH]; simpl; [constructor|].
    intros [Hc Hw]%andb_prop.
    apply (MStarCons _ [c] w); [now constructor|auto].
Qed.

(** [regex_search] with the pattern of one character class finds a
    character of the class. *)
Lemma regex_search_class (p : ascii -> bool) (s : string) :
  regex_search s (Class p) = existsb p (chars s).
Proof.
  unfold regex_search. apply eq_true_iff_eq.
  rewrite accepts_Matches, existsb_exists. split.
  - intros (w1 & w2 & Heq & _ & H2)%Matches_Seq_inv.
    apply Matches_Seq_inv in H2 as (w3 & w4 & -> & H3 & _).
    apply Matches_Class_inv in H3 as (c & -> & Hc).
    exists c. split; [|assumption].
    rewrite Heq. apply in_or_app. right. now left.
  - intros (c & Hin & Hp). apply in_split in Hin as (w1 & w2 & ->).
    apply MSeq; [apply Matches_star_any|].
    apply (MSeq _ _ [c] w2); [now constructor|apply Matches_star_any].
Qed.

Lemma forallb_is_space (w : list ascii) :
  forallb (fun c => Ascii.eqb c sp) w = true -> w = repeat sp (length w).
Proof.
  induction w as [|x w IH]; [reflexivity|]. simpl.
  intros [Hx Hw]%andb_prop. apply Ascii.eqb_eq in Hx. subst x.
  f_equal. now apply IH.
Qed.

(** X22. The prompt pattern: one or more characters, then one character
    that is not a letter or a digit (the underscore counts as such a
    character), then one or more spaces, and nothing after them. *)
Lemma promptPattern_language (s : string) :
  regex_match s ConsoleProcess.promptPattern = true <->
  exists body c n,
    chars s = (body ++ c :: repeat sp (S n))%list
    /\ body <> []
    /\ negb (is_word c) || is_underscore c = true.
Proof.
  unfold regex_match, ConsoleProcess.promptPattern, Plus.
  rewrite accepts_Matches. split.
  - intros (body & rest & Heq & Hbody & Hrest)%Matches_Seq_inv.
    apply Matches_Seq_inv in Hrest as (w1 & spaces & -> & Hc & Hsp).
    apply Matches_Class_inv in Hc as (c & -> & Hclass).
    apply Matches_Seq_inv in Hsp as (w2 & w3 & -> & Hfirst & Hmore).
    apply Matches_Class_inv in Hfirst as (c1 & -> & Hc1).
    apply Ascii.eqb_eq in Hc1. subst c1.
    apply Matches_star_class, forallb_is_space in Hmore.
    exists body, c, (length w3). repeat split.
    + rewrite Heq. simpl. now rewrite <- Hmore.
    + apply Matches_Seq_inv in Hbody as (w4 & w5 & -> & H4 & _).
      apply Matches_Class_inv in H4 as (c4 & -> & _). discriminate.
    + exact Hclass.
  - intros (body & c & n & -> & Hne & Hc).
    destruct body as [|b body]; [contradiction|].
    apply (MSeq _ _ (b :: body) (c :: repeat sp (S n))).
    + apply (MSeq _ _ [b] body); [now constructor|apply Matches_star_any].
    + apply (MSeq _ _ [c] (repeat sp (S n))); [now constructor|].
      apply (MSeq _ _ [sp] (repeat sp n)); [now constructor|].
      apply Matches_star_class. clear. now induction n.
Qed.

End RegexFacts.

(** ** The password cache *)

Section PasswordCache.

Import PasswordManager.

Lemma erase_remove_if_In {A} (pred : A -> bool) (v : list A) (x : A) :
  In x (erase_remove_if pred v) <-> In x v /\ pred x = false.
Proof.
  unfold erase_remove_if. rewrite filter_In.
  destruct (pred x); simpl; intuition congruence.
Qed.

Lemma filter_erase_remove_if {A} (keep pred : A -> bool) (v : list A) :
  (forall x, keep x = true -> pred x = false) ->
  List.filter keep (erase_remove_if pred v) = List.filter keep v.
Proof.
  intros Hk. unfold erase_remove_if.
  induction v as [|x v IH]; simpl; [reflexivity|].
  destruct (pred x) eqn:Hp; simpl.
  - destruct (keep x) eqn:Hx; [|exact IH].
    apply Hk in Hx. congruence.
  - destruct (keep x); [f_equal|]; exact IH.
Qed.

(** C4. When the process of handle [h] exits, the cache keeps exactly the
    entries that belong to another handle or, on a successful exit only,
    have their remember flag set: a failing exit removes every entry of
    [h], a successful one removes the entries of [h] that are not to be
    remembered, and the entries of other handles stay as they were, in
    their order. *)
Theorem onExit_purges_by_outcome (h : string) (exitCode : Z) (pm : t) :
  let before := passwords_ pm in
  let after := passwords_ (onExit h exitCode pm) in
  (forall c, In c after <->
     In c before /\
     (cpHandle c <> h \/ (exitCode = EXIT_SUCCESS /\ remember c = true)))
  /\ after =
       List.filter
         (fun c => negb (hasHandle c h)
                   || ((exitCode =? EXIT_SUCCESS) && remember c)) before
  /\ List.filter (fun c => negb (hasHandle c h)) after
     = List.filter (fun c => negb (hasHandle c h)) before.
Proof.
  cbv zeta. unfold onExit; simpl. split; [|split].
  - intros c. destruct (Z.eqb_spec exitCode EXIT_SUCCESS) as [He|He]; simpl;
      rewrite erase_remove_if_In; unfold forgetOnExit, hasHandle;
      destruct (String.eqb_spec (cpHandle c) h) as [Hh|Hh];
      destruct (remember c); simpl; intuition congruence.
  - destruct (exitCode =? EXIT_SUCCESS); simpl; unfold erase_remove_if;
      apply filter_ext; intros c; unfold forgetOnExit;
      destruct (hasHandle c h), (remember c); reflexivity.
  - destruct (exitCode =? EXIT_SUCCESS); simpl;
      apply filter_erase_remove_if; intros c; unfold forgetOnExit;
      destruct (hasHandle c h); simpl; congruence.
Qed.

Lemma find_hasPrompt_Some (p : string) (v : list CachedPassword)
    (it : CachedPassword) :
  List.find (fun c => hasPrompt c p) v = Some it ->
  In it v /\ prompt it = p.
Proof.
  intros Hf. apply find_some in Hf as [Hin Hp]. split; [exact Hin|].
  unfold hasPrompt in Hp. now apply String.eqb_eq.
Qed.

Lemma find_hasPrompt_None (p : string) (v : list CachedPassword) :
  List.find (fun c => hasPrompt c p) v = None <->
  (forall c, In c v -> prompt c <> p).
Proof.
  split.
  - intros Hf c Hin Hp. apply (find_none _ _ Hf) in Hin.
    unfold hasPrompt in Hin. rewrite Hp, String.eqb_refl in Hin. discriminate.
  - intros Hall. destruct (List.find _ v) as [it|] eqn:Hf; [|reflexivity].
    apply find_hasPrompt_Some in Hf as [Hin Hp]. now destruct (Hall it Hin).
Qed.

(** C2, as the code has it. For a prompt that matches the password-prompt
    pattern, the cache is searched by prompt text alone: the first entry
    with that text, whatever its handle, resolves the prompt with its
    password and a line feed, not echoed, and neither the cache nor the log
    of calls to the interactive callback changes; when no entry has that
    text the callback is called once. *)
Theorem handlePrompt_cache_is_keyed_by_prompt (h p : string)
    (showRememberOption : bool) (pm : t) :
  regex_match p (promptPattern_ pm) = true ->
  (forall it,
     List.find (fun c => hasPrompt c p) (passwords_ pm) = Some it ->
     In it (passwords_ pm) /\ prompt it = p /\
     handlePrompt h p showRememberOption pm
     = (Some (Input.of_text (password it +:+ str1 lf) false), pm))
  /\ ((forall c, In c (passwords_ pm) -> prompt c <> p) ->
      promptHandlerCalls (snd (handlePrompt h p showRememberOption pm))
      = (promptHandlerCalls pm ++ [(p, showRememberOption)])%list).
Proof.
  intros Hm. split.
  - intros it Hf. destruct (find_hasPrompt_Some _ _ _ Hf) as [Hin Hp].
    repeat split; try assumption.
    unfold handlePrompt. now rewrite Hm, Hf.
  - intros Hnone. apply find_hasPrompt_None in Hnone.
    unfold handlePrompt. rewrite Hm, Hnone.
    destruct (promptHandler_ pm p showRememberOption) as [[pw rem]|];
      reflexivity.
Qed.

(** C2, witness: process "B" shows the prompt that process "A" answered
    before. *)
Lemma handlePrompt_cache_is_keyed_by_prompt_witness :
  regex_match "Password: " (promptPattern_ Sample.pm0) = true
  /\ handlePrompt "B" "Password: " false Sample.pm0
     = (Some (Input.of_text ("secret" +:+ str1 lf) false), Sample.pm0).
Proof.
  split; [reflexivity|].
  apply (proj1 (handlePrompt_cache_is_keyed_by_prompt
                  "B" "Password: " false Sample.pm0 eq_refl) Sample.secretOfA).
  reflexivity.
Defined.

(** C2, counterexample. The cache holds no entry for the pair of handle "B"
    and prompt "Password: "; the request of "B" is answered all the same,
    with the password cached for "A", and the callback is not called. *)
Lemma handlePrompt_answers_across_handles :
  List.find (fun c => hasHandle c "B" && hasPrompt c "Password: ")
    (passwords_ Sample.pm0) = None
  /\ fst (handlePrompt "B" "Password: " false Sample.pm0)
     = Some (Input.of_text (password Sample.secretOfA +:+ str1 lf) false)
  /\ cpHandle Sample.secretOfA = "A"
  /\ promptHandlerCalls (snd (handlePrompt "B" "Password: " false Sample.pm0))
     = [].
Proof. repeat split. Qed.

End PasswordCache.

(** ** Lines of a text *)

Section Lines.

Lemma chars_of_list (w : list ascii) : chars (string_of_list_ascii w) = w.
Proof. apply list_ascii_of_string_of_list_ascii. Qed.

Lemma string_of_chars (s : string) : string_of_list_ascii (chars s) = s.
Proof. apply string_of_list_ascii_of_string. Qed.

Lemma string_of_list_app (u v : list ascii) :
  string_of_list_ascii (u ++ v)
  = string_of_list_ascii u +:+ string_of_list_ascii v.
Proof. induction u as [|c u IH]; simpl; [reflexivity|]. now rewrite IH. Qed.

Lemma append_empty_r (x : string) : x +:+ "" = x.
Proof.
  induction x as [|c x IH]; [reflexivity|].
  change (String c (x +:+ "") = String c x). now rewrite IH.
Qed.

Lemma append_assoc (x y z : string) : (x +:+ y) +:+ z = x +:+ (y +:+ z).
Proof.
  induction x as [|c x IH]; [reflexivity|].
  change (String c ((x +:+ y) +:+ z) = String c (x +:+ (y +:+ z))).
  now rewrite IH.
Qed.







End Lines.

(** ** One process *)

Section Process.

Import ConsoleProcess.

Context `{Host}.

(** *** The output storage *)

Lemma appendToOutputBuffer_frame (s : string) (p : t) (e : Env) :
  sameSession p (fst (appendToOutputBuffer s p e))
  /\ sameChannels e (snd (appendToOutputBuffer s p e)).
Proof.
  unfold appendToOutputBuffer, getLogFilePath, FS.ensureDirectory,
    FS.appendToFile, sameSession, sameChannels.
  destruct (terminalSequence_ (procInfo_ p) =? kNoTerminal);
    [simpl; tauto|].
  destruct (dirAvailable (fileSystem e)) eqn:Hd; [|simpl; tauto].
  destruct (writable (fileSystem e)) eqn:Hw; simpl; rewrite ?Hd, ?Hw; tauto.
Qed.

Lemma appendToOutputBuffer_stored (s : string) (p : t) (e : Env) :
  storageInOrder p e = true ->
  storedOutput (fst (appendToOutputBuffer s p e))
    (snd (appendToOutputBuffer s p e))
  = storedOutput p e +:+ s.
Proof.
  unfold storageInOrder, storedOutput, appendToOutputBuffer, getLogFilePath,
    FS.ensureDirectory, FS.appendToFile.
  destruct (terminalSequence_ (procInfo_ p) =? kNoTerminal) eqn:Ht; simpl.
  - intros _. now rewrite Ht.
  - intros [Hd Hw]%andb_prop. rewrite Hd, Hw. simpl. rewrite Ht.
    now rewrite lookup_insert_eq.
Qed.

Lemma appendToOutputBuffer_in_order (s : string) (p : t) (e : Env) :
  storageInOrder (fst (appendToOutputBuffer s p e))
    (snd (appendToOutputBuffer s p e))
  = storageInOrder p e.
Proof.
  destruct (appendToOutputBuffer_frame s p e)
    as [(_ & _ & _ & Ht & _) (_ & _ & _ & _ & Hd & _ & Hw)].
  unfold storageInOrder. now rewrite Ht, Hd, Hw.
Qed.

(** *** Output events *)

Lemma enqueOutputEvent_eq (output : string) (error : bool) (p : t) (e : Env) :
  enqueOutputEvent output error p e
  = (fst (appendToOutputBuffer output p e),
     enqueClientEvent
       (ConsoleProcessOutput (handle p) error
          (trimLeadingLines (maxOutputLines_ (procInfo_ p)) output))
       (snd (appendToOutputBuffer output p e))).
Proof.
  destruct (appendToOutputBuffer_frame output p e)
    as [(_ & Hh & Hm & _) _].
  unfold enqueOutputEvent.
  destruct (appendToOutputBuffer output p e) as [p1 e1]; simpl in *.
  now rewrite Hh, Hm.
Qed.

Lemma enqueOutputEvent_frame (output : string) (error : bool) (p : t)
    (e : Env) :
  sameSession p (fst (enqueOutputEvent output error p e))
  /\ clientEvents (snd (enqueOutputEvent output error p e))
     = (clientEvents e
        ++ [ConsoleProcessOutput (handle p) error
              (trimLeadingLines (maxOutputLines_ (procInfo_ p)) output)])%list.
Proof.
  rewrite enqueOutputEvent_eq; simpl.
  destruct (appendToOutputBuffer_frame output p e) as [Hs (Hev & _)].
  now rewrite Hev.
Qed.


(** *** Prompt detection *)

Lemma handleConsolePrompt_without_handler (prompt : string) (p : t) (e : Env) :
  onPrompt_ p = None ->
  handleConsolePrompt prompt p e
  = (p, enqueClientEvent (ConsoleProcessPrompt (handle p) prompt) e).
Proof. intros Hn. unfold handleConsolePrompt. now rewrite Hn. Qed.

(** The events [maybeConsolePrompt] adds when no handler is attached. The
    test for control characters and the test of the prompt pattern follow
    one another; the second is made whatever the first found. *)
Lemma maybeConsolePrompt_events (output : string) (p : t) (e : Env) :
  onPrompt_ p = None ->
  let trimmed := trimLeadingLines (maxOutputLines_ (procInfo_ p)) output in
  clientEvents (snd (maybeConsolePrompt output p e))
  = (clientEvents e
     ++ (if regex_search output (controlCharsPattern_ p)
         then [ConsoleProcessOutput (handle p) false trimmed] else [])
     ++ (if regex_match output (promptPattern_ p)
         then [ConsoleProcessPrompt (handle p) output]
         else [ConsoleProcessOutput (handle p) false trimmed]))%list.
Proof.
  intros Hn. cbv zeta. unfold maybeConsolePrompt.
  destruct (regex_search output (controlCharsPattern_ p)).
  - destruct (enqueOutputEvent_frame output false p e)
      as [(_ & Hh & Hm & _ & _ & _ & _ & Hp & _ & Hpp) Hev].
    destruct (enqueOutputEvent output false p e) as [p1 e1]; simpl in *.
    rewrite Hpp. destruct (regex_match output (promptPattern_ p)); simpl.
    + rewrite handleConsolePrompt_without_handler by congruence.
      simpl. now rewrite Hev, Hh, <- app_assoc.
    + rewrite (proj2 (enqueOutputEvent_frame output false p1 e1)).
      now rewrite Hev, Hh, Hm, <- app_assoc.
  - destruct (regex_match output (promptPattern_ p)); simpl.
    + now rewrite handleConsolePrompt_without_handler.
    + apply enqueOutputEvent_frame.
Qed.

(** X23. A candidate free of carriage returns and backspaces, in a session
    with the patterns of [regexInit] and no handler: a prompt event when
    it matches the prompt pattern, an output event when it does not, and
    nothing else. *)
Lemma maybeConsolePrompt_without_control_chars (output : string) (p : t)
    (e : Env) :
  onPrompt_ p = None ->
  controlCharsPattern_ p = controlCharsPattern ->
  promptPattern_ p = promptPattern ->
  existsb (fun c => Ascii.eqb c cr || Ascii.eqb c bs) (chars output) = false ->
  clientEvents (snd (maybeConsolePrompt output p e))
  = (clientEvents e
     ++ [if regex_match output promptPattern
         then ConsoleProcessPrompt (handle p) output
         else ConsoleProcessOutput (handle p) false
                (trimLeadingLines (maxOutputLines_ (procInfo_ p)) output)])%list.
Proof.
  intros Hn Hcc Hpp Hfree.
  rewrite (maybeConsolePrompt_events output p e Hn), Hcc, Hpp.
  unfold controlCharsPattern. rewrite regex_search_class, Hfree.
  now destruct (regex_match output promptPattern).
Qed.

(** *** Smart terminals *)

Lemma onStdout_smart (output : string) (p : t) (e : Env) :
  smartTerminal (options_ p) = true ->
  onStdout output p e = enqueOutputEvent output false p e.
Proof. intros Hs. unfold onStdout. now rewrite Hs. Qed.

Lemma onStdoutAll_smart (chunks : list string) (p : t) (e : Env) :
  smartTerminal (options_ p) = true ->
  sameSession p (fst (onStdoutAll chunks p e))
  /\ clientEvents (snd (onStdoutAll chunks p e))
     = (clientEvents e
        ++ List.map
             (fun output =>
                ConsoleProcessOutput (handle p) false
                  (trimLeadingLines (maxOutputLines_ (procInfo_ p)) output))
             chunks)%list.
Proof.
  revert p e. induction chunks as [|output rest IH]; intros p e Hs; simpl.
  - rewrite app_nil_r. unfold sameSession. tauto.
  - rewrite (onStdout_smart _ _ _ Hs).
    destruct (enqueOutputEvent_frame output false p e) as [Hsame Hev].
    destruct (enqueOutputEvent output false p e) as [p1 e1]; simpl in *.
    destruct (IH p1 e1) as [Hsame' Hev'];
      [now rewrite (proj1 Hsame)|].
    split.
    + unfold sameSession in *. intuition congruence.
    + destruct Hsame as (_ & Hh & Hm & _).
      rewrite Hev', Hev, Hh, Hm, <- app_assoc. reflexivity.
Qed.

(** C10. On a smart terminal [onStdout] hands the chunk it received, as it
    is, to [enqueOutputEvent]: the line endings are not converted and no
    prompt is looked for. Whatever chunks arrive, each adds one output event
    for that chunk and nothing else, so no prompt event is ever added; and
    [bufferedOutput] is the empty string before and after, whatever was
    appended. *)
Theorem smart_terminal_forwards_chunks_and_hides_buffer
    (chunks : list string) (output appended : string) (p : t) (e : Env) :
  smartTerminal (options_ p) = true ->
  onStdout output p e = enqueOutputEvent output false p e
  /\ clientEvents (snd (onStdoutAll chunks p e))
     = (clientEvents e
        ++ List.map
             (fun output =>
                ConsoleProcessOutput (handle p) false
                  (trimLeadingLines (maxOutputLines_ (procInfo_ p)) output))
             chunks)%list
  /\ List.filter isPromptEvent (clientEvents (snd (onStdoutAll chunks p e)))
     = List.filter isPromptEvent (clientEvents e)
  /\ bufferedOutput p = ""
  /\ bufferedOutput (fst (onStdoutAll chunks p e)) = ""
  /\ bufferedOutput (fst (appendToOutputBuffer appended p e)) = "".
Proof.
  intros Hs.
  destruct (onStdoutAll_smart chunks p e Hs) as [(Ho & _) Hev].
  destruct (appendToOutputBuffer_frame appended p e) as [(Ho' & _) _].
  repeat split.
  - now apply onStdout_smart.
  - exact Hev.
  - rewrite Hev, List.filter_app.
    rewrite <- (app_nil_r (List.filter isPromptEvent (clientEvents e))) at 2.
    f_equal. clear. now induction chunks.
  - unfold bufferedOutput. now rewrite Hs.
  - unfold bufferedOutput. now rewrite Ho, Hs.
  - unfold bufferedOutput. now rewrite Ho', Hs.
Qed.

(** *** Reading the stored output back *)

Lemma getSavedBuffer_reads_file (p : t) (e : Env) :
  dirAvailable (fileSystem e) = true ->
  readable (fileSystem e) = true ->
  getSavedBuffer p e = default "" (files (fileSystem e) !! handle p).
Proof.
  intros Hd Hr.
  unfold getSavedBuffer, getLogFilePath, FS.ensureDirectory, FS.exists_,
    FS.readStringFromFile.
  rewrite Hd, Hr.
  destruct (files (fileSystem e) !! handle p) as [content|] eqn:Hf;
    reflexivity.
Qed.

Lemma appendAll_stored (l : list string) (p : t) (e : Env) :
  storageInOrder p e = true ->
  sameSession p (fst (appendAll l p e))
  /\ sameChannels e (snd (appendAll l p e))
  /\ storedOutput (fst (appendAll l p e)) (snd (appendAll l p e))
     = storedOutput p e +:+ String.concat "" l.
Proof.
  revert p e. induction l as [|s l IH]; intros p e Hok; simpl.
  - unfold sameSession, sameChannels.
    rewrite append_empty_r. tauto.
  - pose proof (appendToOutputBuffer_frame s p e) as [Hs Hc].
    pose proof (appendToOutputBuffer_stored s p e Hok) as Hst.
    pose proof (appendToOutputBuffer_in_order s p e) as Hio.
    destruct (appendToOutputBuffer s p e) as [p1 e1]; simpl in *.
    destruct (IH p1 e1) as (Hs' & Hc' & Hst'); [congruence|].
    split; [|split].
    + unfold sameSession in *. intuition congruence.
    + unfold sameChannels in *. intuition congruence.
    + rewrite Hst', Hst.
      rewrite append_assoc. f_equal.
      destruct l; [|reflexivity].
      cbn [String.concat]. now rewrite append_empty_r.
Qed.

Lemma appendAll_modal (l : list string) (p : t) (e : Env) :
  terminalSequence_ (procInfo_ p) = kNoTerminal ->
  snd (appendAll l p e) = e.
Proof.
  revert p. induction l as [|s l IH]; intros p Ht; simpl; [reflexivity|].
  unfold appendToOutputBuffer. rewrite Ht. simpl. now apply IH.
Qed.

(** C6, as the code has it. [getSavedBuffer], which answers the get-buffer
    call, returns the log file named by the handle, whole and as it is, and
    the empty string when there is no such file, provided the scratch
    directory and the file can be read. For a terminal tab whose file can
    be written it therefore returns what it returned before followed by
    exactly the texts appended since. The embedded buffer of a modal
    console is not consulted: appending to it does not change what
    [getSavedBuffer] returns. *)
Theorem getSavedBuffer_returns_the_log_file (l : list string) (p : t)
    (e : Env) :
  dirAvailable (fileSystem e) = true ->
  readable (fileSystem e) = true ->
  getSavedBuffer p e = default "" (files (fileSystem e) !! handle p)
  /\ (terminalSequence_ (procInfo_ p) <> kNoTerminal ->
      writable (fileSystem e) = true ->
      getSavedBuffer (fst (appendAll l p e)) (snd (appendAll l p e))
      = getSavedBuffer p e +:+ String.concat "" l)
  /\ (terminalSequence_ (procInfo_ p) = kNoTerminal ->
      getSavedBuffer (fst (appendAll l p e)) (snd (appendAll l p e))
      = getSavedBuffer p e)
  /\ (forall w pos,
        find (handle p) w = Some (pos, p) -> env w = e ->
        procGetBuffer (handle p) w = (Success, Some (getSavedBuffer p e))).
Proof.
  intros Hd Hr. split; [now apply getSavedBuffer_reads_file|split; [|split]].
  - intros Ht Hw.
    assert (Hok : storageInOrder p e = true).
    { unfold storageInOrder. rewrite Hd, Hw. apply orb_true_r. }
    destruct (appendAll_stored l p e Hok)
      as ((_ & Hh & _ & Ht' & _) & (_ & _ & _ & _ & Hd' & Hr' & _) & Hst).
    rewrite !getSavedBuffer_reads_file by congruence.
    apply Z.eqb_neq in Ht.
    unfold storedOutput in Hst. rewrite Ht', Ht in Hst. exact Hst.
  - intros Ht.
    assert (Hok : storageInOrder p e = true).
    { unfold storageInOrder. apply Z.eqb_eq in Ht. now rewrite Ht. }
    destruct (appendAll_stored l p e Hok) as ((_ & Hh & _) & _ & _).
    rewrite (appendAll_modal l p e Ht).
    rewrite !getSavedBuffer_reads_file by assumption. now rewrite Hh.
  - intros w pos Hf He. unfold procGetBuffer. now rewrite Hf, He.
Qed.

(** *** Interrupting *)

(** C3, as the code has it. [interrupt] sets the flag; a tick that finds
    the flag set returns [false] at once: it leaves the input queue, the
    output storage and the flag as they are and calls no process operation.
    A tick returns [false] exactly when the flag is set. The interrupt
    signal and the echoed "^C" belong to a queued input whose interrupt
    field is set, handled by a tick that finds the flag clear. *)
Theorem interrupt_flag_stops_the_tick (p : t) (e : Env) (echo : bool)
    (txt : string) :
  interrupt_ (interrupt p) = true
  /\ onContinue (interrupt p) e = (false, interrupt p, e)
  /\ fst (fst (onContinue p e)) = negb (interrupt_ p)
  /\ processInput (Input.mk true txt echo) p e
     = (if echo then appendToOutputBuffer "^C" p (opCall PtyInterrupt e)
        else (p, opCall PtyInterrupt e)).
Proof.
  repeat split.
  unfold onContinue. destruct (interrupt_ p); [reflexivity|].
  destruct (drainInputQueue (inputQueue_ p) p e) as [p1 e1].
  destruct (negb (newCols_ p1 =? -1) && negb (newRows_ p1 =? -1));
    reflexivity.
Qed.

(** *** Starting *)

(** C9. On a started session [start] returns success and changes nothing:
    the supervisor is not called. On a session that is not started, when
    the supervisor fails to launch the request, [start] returns that
    failure, the session is as it was (not started), and a second [start]
    asks the supervisor again. *)
Theorem start_is_idempotent_and_reports_launch_failure (p : t) (e : Env) :
  (isStarted p = true -> start p e = (Success, p, e))
  /\ (forall what,
        isStarted p = false ->
        launchOutcome (supervisorCalls e) (launchRequest p) = SystemError what ->
        start p e = (SystemError what, p, supervisorCall (launchRequest p) e)
        /\ isStarted (snd (fst (start p e))) = false
        /\ supervisorCalls (snd (start p (snd (start p e))))
           = (supervisorCalls e ++ [launchRequest p; launchRequest p])%list).
Proof.
  split.
  - intros Hs. unfold start. now rewrite Hs.
  - intros what Hs Hfail.
    assert (Hstart : start p e
                     = (SystemError what, p, supervisorCall (launchRequest p) e)).
    { unfold start. now rewrite Hs, Hfail. }
    rewrite Hstart. simpl. repeat split; [exact Hs|].
    unfold start. rewrite Hs.
    destruct (negb (isError _)); simpl; now rewrite <- app_assoc.
Qed.

End Process.

(** ** The process table *)

Section Table.

Import ConsoleProcess.

Context `{Host}.

Lemma count_key_map_to_list {A} (m : gmap string A) (k : string) (v : A) :
  m !! k = Some v ->
  length (List.filter (fun kv => String.eqb (fst kv) k) (map_to_list m)) = 1%nat.
Proof.
  intros Hk.
  assert (Hnone : forall (m' : gmap string A),
             m' !! k = None ->
             List.filter (fun kv => String.eqb (fst kv) k) (map_to_list m') = []).
  { intros m' Hm'.
    destruct (List.filter _ (map_to_list m')) as [|[k' v'] rest] eqn:Hf;
      [reflexivity|exfalso].
    assert (Hin : In (k', v')
                    (List.filter (fun kv => String.eqb (fst kv) k)
                       (map_to_list m'))) by (rewrite Hf; now left).
    apply filter_In in Hin as [Hin Heq]. simpl in Heq.
    apply String.eqb_eq in Heq. subst k'.
    apply list_elem_of_In, elem_of_map_to_list in Hin. congruence. }
  rewrite <- (insert_delete_id m k v Hk).
  assert (Hperm : Permutation
                    (map_to_list (<[k:=v]> (delete k m)))
                    ((k, v) :: map_to_list (delete k m))).
  { apply map_to_list_insert, lookup_delete_eq. }
  assert (Hlen : forall (f : string * A -> bool) l1 l2,
             Permutation l1 l2 ->
             length (List.filter f l1) = length (List.filter f l2)).
  { intros f l1 l2 Hp. induction Hp; simpl; try congruence.
    - destruct (f x); simpl; congruence.
    - destruct (f x), (f y); reflexivity. }
  rewrite (Hlen _ _ _ Hperm). simpl. rewrite String.eqb_refl. simpl.
  now rewrite Hnone by apply lookup_delete_eq.
Qed.

(** C5. When the entry allows a restart, names a handle, and the table
    holds a started process under that handle, [createTerminalProcess]
    returns that very process, whose pending size becomes 25 by 5; it
    allocates no process object, asks the supervisor for nothing, and
    leaves the table as it was. A second call, in the state the first one
    left, returns the same process and changes nothing; the table has
    exactly one entry for the handle. *)
Theorem createTerminalProcess_reattaches_to_started_process
    (options options' : ProcessOptions) (procInfo procInfo' : ConsoleProcessInfo)
    (w : World) (pos : nat) (p : t) :
  allowRestart_ procInfo = true ->
  handle_ procInfo <> "" ->
  allowRestart_ procInfo' = true ->
  handle_ procInfo' = handle_ procInfo ->
  s_procs w !! handle_ procInfo = Some pos ->
  objects w !! pos = Some p ->
  isStarted p = true ->
  let first := createTerminalProcess options procInfo w in
  let second := createTerminalProcess options' procInfo' (snd first) in
  fst first = pos
  /\ snd first = with_objects (<[pos := resize 25 5 p]> (objects w)) w
  /\ objects (snd first) !! pos = Some (resize 25 5 p)
  /\ newCols_ (resize 25 5 p) = 25 /\ newRows_ (resize 25 5 p) = 5
  /\ nextObject (snd first) = nextObject w
  /\ supervisorCalls (env (snd first)) = supervisorCalls (env w)
  /\ s_procs (snd first) = s_procs w
  /\ second = (pos, snd first)
  /\ length (List.filter (fun kv => String.eqb (fst kv) (handle_ procInfo))
               (map_to_list (s_procs (snd second)))) = 1%nat.
Proof.
  intros Har Hh Har' Hh' Hpos Hobj Hst. cbv zeta.
  apply String.eqb_neq in Hh.
  assert (Hfirst : createTerminalProcess options procInfo w
                   = (pos, with_objects (<[pos := resize 25 5 p]> (objects w)) w)).
  { unfold createTerminalProcess, find.
    rewrite Har, Hh, Hpos. simpl. rewrite Hobj. simpl. now rewrite Hst. }
  assert (Hsecond :
            createTerminalProcess options' procInfo'
              (with_objects (<[pos := resize 25 5 p]> (objects w)) w)
            = (pos, with_objects (<[pos := resize 25 5 p]> (objects w)) w)).
  { unfold createTerminalProcess, find.
    rewrite Har', Hh', Hh. simpl. rewrite Hpos. simpl.
    rewrite lookup_insert_eq. simpl.
    change (isStarted (resize 25 5 p)) with (isStarted p). rewrite Hst.
    unfold with_objects; simpl. rewrite insert_insert_eq. reflexivity. }
  rewrite Hfirst; simpl. rewrite Hsecond; simpl.
  repeat split; try reflexivity.
  - apply lookup_insert_eq.
  - now apply (count_key_map_to_list _ _ pos).
Qed.

(** *** The invariant of the table *)

Lemma tableInvariant_empty (w : World) : s_procs w = ∅ -> tableInvariant w.
Proof. intros He h id. now rewrite He, lookup_empty. Qed.

Lemma tableInvariant_wellFormed (w : World) :
  tableInvariant w -> tableWellFormed w = true.
Proof.
  intros Hinv. unfold tableWellFormed. apply forallb_forall.
  intros [h id] Hin. apply list_elem_of_In, elem_of_map_to_list in Hin.
  destruct (Hinv h id Hin) as (_ & p & -> & Hh). now apply String.eqb_eq.
Qed.

Lemma tableInvariant_file (proc : ConsoleProcess.t) (w : World) :
  tableInvariant w ->
  tableInvariant
    (with_s_procs
       (<[handle proc := fst (allocate proc w)]> (s_procs (snd (allocate proc w))))
       (snd (allocate proc w))).
Proof.
  intros Hinv h id. unfold allocate; simpl.
  destruct (decide (handle proc = h)) as [<-|Hne].
  - rewrite lookup_insert_eq. intros [= <-]. split; [lia|].
    exists proc. now rewrite lookup_insert_eq.
  - rewrite lookup_insert_ne by exact Hne. intros Hl.
    destruct (Hinv h id Hl) as (Hlt & p & Hp & Hh). split; [lia|].
    exists p. split; [|exact Hh]. rewrite lookup_insert_ne by lia. exact Hp.
Qed.


Lemma insertEntry_perm {A} (x : string * A) (l : list (string * A)) :
  Permutation (insertEntry x l) (x :: l).
Proof.
  induction l as [|y l IH]; simpl; [reflexivity|].
  destruct (String.leb (fst x) (fst y)); [reflexivity|].
  rewrite IH. apply perm_swap.
Qed.

Lemma inKeyOrder_perm {A} (l : list (string * A)) :
  Permutation (inKeyOrder l) l.
Proof.
  induction l as [|x l IH]; simpl; [reflexivity|].
  rewrite insertEntry_perm. now constructor.
Qed.

Lemma entries_lookup (w : World) (h : string) (id : nat) :
  In (h, id) (entries w) <-> s_procs w !! h = Some id.
Proof.
  unfold entries. rewrite <- elem_of_map_to_list, <- list_elem_of_In.
  now rewrite inKeyOrder_perm.
Qed.

Lemma entries_NoDup (w : World) : List.NoDup (List.map fst (entries w)).
Proof.
  apply NoDup_ListNoDup. unfold entries.
  rewrite inKeyOrder_perm. apply NoDup_fst_map_to_list.
Qed.

Lemma tableWellFormed_lookup (w : World) (h : string) (id : nat) :
  tableWellFormed w = true ->
  s_procs w !! h = Some id ->
  exists p, objects w !! id = Some p /\ handle p = h.
Proof.
  unfold tableWellFormed. rewrite forallb_forall. intros Hwf Hl.
  apply elem_of_map_to_list, list_elem_of_In, Hwf in Hl.
  destruct (objects w !! id) as [p|]; [|discriminate].
  exists p. split; [reflexivity|]. now apply String.eqb_eq.
Qed.

Lemma serializeEntries_keeps (l : list (string * nat))
    (objs : gmap nat ConsoleProcess.t) :
  serializeEntries false l objs
  = (List.map Info.toJson
       (omap (fun '(_, id) => procInfo_ <$> objs !! id) l),
     objs).
Proof.
  induction l as [|[h id] l IH]; simpl; [reflexivity|].
  destruct (objs !! id) as [p|]; simpl; now rewrite IH.
Qed.

Lemma Info_fromJson_toJson (i : ConsoleProcessInfo) :
  match Info.toJson i with
  | JObj obj => Info.fromJson obj = Some (Info.setIsStarted false i)
  | _ => False
  end.
Proof.
  destruct i as [h c t ts ar cp ec ml im b st].
  destruct ec, im; reflexivity.
Qed.

(** Reading back the objects written for [infos], from any state: every
    one is rebuilt as an inert process and filed under its handle. *)
Lemma deserializeEntries_infos (infos : list ConsoleProcessInfo) (w0 : World) :
  exists w2,
    deserializeEntries (List.map Info.toJson infos) w0 = Some w2
    /\ (nextObject w0 <= nextObject w2)%nat
    /\ (forall id, (id < nextObject w0)%nat ->
                   objects w2 !! id = objects w0 !! id)
    /\ (forall h, ~ In h (List.map handle_ infos) ->
                  s_procs w2 !! h = s_procs w0 !! h)
    /\ (List.NoDup (List.map handle_ infos) ->
        forall i, In i infos ->
          exists id,
            s_procs w2 !! handle_ i = Some id
            /\ objects w2 !! id
               = Some (new_fromInfo (Info.setIsStarted false i))).
Proof.
  revert w0. induction infos as [|i infos IH]; intros w0.
  - exists w0. simpl. repeat split; try tauto. lia.
  - pose proof (Info_fromJson_toJson i) as Hrt.
    cbn [List.map deserializeEntries].
    destruct (Info.toJson i) as [| | | | |obj]; try contradiction.
    unfold fromJson. rewrite Hrt. cbn [fmap option_fmap option_map allocate].
    set (proc := new_fromInfo (Info.setIsStarted false i)).
    assert (Hhandle : handle proc = handle_ i) by (now destruct i).
    rewrite Hhandle.
    match goal with
    | |- context [deserializeEntries _ ?w] => destruct (IH w)
        as (w2 & Hw2 & Hnext & Hobj & Hother & Hmine)
    end.
    cbn [nextObject objects s_procs with_s_procs] in *.
    exists w2. split; [exact Hw2|]. split; [lia|]. split; [|split].
    + intros id Hid. rewrite Hobj by lia. apply lookup_insert_ne. lia.
    + intros h Hh. cbn [List.map In] in Hh.
      rewrite Hother by tauto. apply lookup_insert_ne. tauto.
    + intros Hnd i' [<-|Hin].
      * inversion Hnd as [|? ? Hnotin _]; subst.
        exists (nextObject w0). split.
        -- rewrite Hother by exact Hnotin. apply lookup_insert_eq.
        -- rewrite Hobj by lia. apply lookup_insert_eq.
      * inversion Hnd; subst. now apply Hmine.
Qed.

Lemma processesAsJson_infos (w : World) :
  processesAsJson w
  = JArr (List.map Info.toJson
            (omap (fun '(_, id) => procInfo_ <$> objects w !! id) (entries w))).
Proof.
  unfold processesAsJson. f_equal.
  induction (entries w) as [|[h id] l IH]; simpl; [reflexivity|].
  destruct (objects w !! id) as [p|]; simpl; [f_equal|]; exact IH.
Qed.

Lemma infos_handles (objs : gmap nat ConsoleProcess.t)
    (l : list (string * nat)) :
  (forall h id, In (h, id) l ->
     exists p, objs !! id = Some p /\ handle p = h) ->
  List.map handle_ (omap (fun '(_, id) => procInfo_ <$> objs !! id) l)
  = List.map fst l.
Proof.
  induction l as [|[h id] l IH]; intros Hwf; simpl; [reflexivity|].
  destruct (Hwf h id) as (p & Hp & Hh); [now left|].
  rewrite Hp. simpl. f_equal; [exact Hh|].
  apply IH. intros h' id' Hin. apply Hwf. now right.
Qed.

Lemma infos_In (objs : gmap nat ConsoleProcess.t) (l : list (string * nat))
    (h : string) (id : nat) (p : ConsoleProcess.t) :
  In (h, id) l -> objs !! id = Some p ->
  In (procInfo_ p) (omap (fun '(_, id) => procInfo_ <$> objs !! id) l).
Proof.
  intros Hin Hp. induction l as [|[h' id'] l IH]; simpl; [contradiction|].
  destruct Hin as [Heq|Hin].
  - injection Heq as -> ->. rewrite Hp. now left.
  - destruct (objs !! id'); simpl; [right|]; now apply IH.
Qed.

Lemma saveConsoleProcesses_table (terminatedNormally : bool) (w : World) :
  objects (saveConsoleProcesses terminatedNormally w) = objects w
  /\ s_procs (saveConsoleProcesses terminatedNormally w) = s_procs w
  /\ nextObject (saveConsoleProcesses terminatedNormally w) = nextObject w.
Proof.
  unfold saveConsoleProcesses, serializeConsoleProcs.
  destruct terminatedNormally; simpl; [|tauto].
  rewrite serializeEntries_keeps. simpl. tauto.
Qed.

Lemma tableInvariant_same_table (w w' : World) :
  objects w' = objects w -> s_procs w' = s_procs w ->
  nextObject w' = nextObject w ->
  tableInvariant w -> tableInvariant w'.
Proof. intros Ho Hs Hn Hinv h id. rewrite Ho, Hs, Hn. apply Hinv. Qed.

Lemma tableInvariant_register (proc : ConsoleProcess.t) (w : World) :
  tableInvariant w -> tableInvariant (snd (register proc w)).
Proof.
  intros Hinv. unfold register.
  destruct (allocate proc w) as [ptrProc w1] eqn:Ha. simpl.
  destruct (saveConsoleProcesses_table true
              (with_s_procs (<[handle proc := ptrProc]> (s_procs w1)) w1))
    as (Ho & Hs & Hn).
  apply (tableInvariant_same_table _ _ Ho Hs Hn).
  pose proof (tableInvariant_file proc w Hinv) as Hf.
  now rewrite Ha in Hf.
Qed.

Lemma tableInvariant_noteHandle (procInfo : ConsoleProcessInfo) (w : World) :
  tableInvariant w -> tableInvariant (noteHandle procInfo w).
Proof. unfold noteHandle. now destruct (String.eqb _ _). Qed.

(** The table stays well formed through the two ways of making a process
    and through reading a persisted index. *)
Lemma tableInvariant_create (command : string) (options : ProcessOptions)
    (procInfo : ConsoleProcessInfo) (w : World) :
  tableInvariant w -> tableInvariant (snd (create command options procInfo w)).
Proof.
  intros Hinv. unfold create.
  now apply tableInvariant_register, tableInvariant_noteHandle.
Qed.

Lemma tableInvariant_createTerminalProcess (options : ProcessOptions)
    (procInfo : ConsoleProcessInfo) (w : World) :
  tableInvariant w ->
  tableInvariant (snd (createTerminalProcess options procInfo w)).
Proof.
  intros Hinv. unfold createTerminalProcess.
  destruct (allowRestart_ procInfo && negb (String.eqb (handle_ procInfo) ""));
    [|now apply tableInvariant_create].
  destruct (find (handle_ procInfo) w) as [[pos p]|] eqn:Hf;
    [|now apply tableInvariant_register, tableInvariant_noteHandle].
  destruct (isStarted p);
    [|now apply tableInvariant_register, tableInvariant_noteHandle].
  simpl. intros h id Hl. destruct (Hinv h id Hl) as (Hlt & q & Hq & Hh).
  split; [exact Hlt|]. unfold with_objects; cbn [objects].
  destruct (decide (pos = id)) as [->|Hne].
  - exists (resize 25 5 p). rewrite lookup_insert_eq. split; [reflexivity|].
    unfold find in Hf.
    destruct (s_procs w !! handle_ procInfo) as [pos'|]; [|discriminate].
    simpl in Hf. destruct (objects w !! pos') as [p'|] eqn:Hp'; [|discriminate].
    simpl in Hf. injection Hf as -> ->.
    assert (q = p) by congruence. now subst q.
  - exists q. now rewrite lookup_insert_ne.
Qed.

Lemma tableInvariant_deserializeEntries (procs : list Json) (w w' : World) :
  deserializeEntries procs w = Some w' ->
  tableInvariant w -> tableInvariant w'.
Proof.
  revert w. induction procs as [|j procs IH]; intros w; simpl.
  - now intros [= <-].
  - destruct j as [| | | | |obj]; try discriminate.
    destruct (fromJson obj) as [proc|]; [|discriminate].
    intros Hd Hinv. apply (IH _ Hd).
    exact (tableInvariant_file proc w Hinv).
Qed.

Lemma tableInvariant_deserializeConsoleProcs (jsonStr : string) (w w' : World) :
  deserializeConsoleProcs jsonStr w = Some w' ->
  tableInvariant w -> tableInvariant w'.
Proof.
  unfold deserializeConsoleProcs.
  destruct (String.eqb jsonStr ""); [now intros [= <-]|].
  destruct (json_parse jsonStr) as [[| | | |procs|]|]; try discriminate;
    [|now intros [= <-]].
  apply tableInvariant_deserializeEntries.
Qed.

(** C8. Take a table in which every entry is filed under the handle of its
    process, write it with [serializeConsoleProcs], and read the text back
    with [deserializeConsoleProcs] into a state whose table is empty;
    suppose the JSON parser reads what the writer wrote for this table, and
    the writer wrote something. Then the table read back has the same set
    of handles, and under each handle a process with the same handle,
    caption, title, terminal identity, flags, exit code, line limit and
    interaction mode, which is not started. Writing changes nothing. *)
Theorem deserialize_serialize_keeps_handles_and_metadata (w w0 : World) :
  tableWellFormed w = true ->
  s_procs w0 = ∅ ->
  json_write (processesAsJson w) <> "" ->
  json_parse (json_write (processesAsJson w)) = Some (processesAsJson w) ->
  exists w2,
    deserializeConsoleProcs (fst (serializeConsoleProcs false w)) w0 = Some w2
    /\ snd (serializeConsoleProcs false w) = w
    /\ dom (s_procs w2) = dom (s_procs w)
    /\ (forall h pos p,
          find h w = Some (pos, p) ->
          exists pos2 p2,
            find h w2 = Some (pos2, p2)
            /\ persistedFields (procInfo_ p2) = persistedFields (procInfo_ p)
            /\ isStarted p2 = false).
Proof.
  intros Hwf Hempty Hne Hparse.
  rewrite processesAsJson_infos in Hne, Hparse.
  unfold serializeConsoleProcs. rewrite serializeEntries_keeps.
  set (infos := omap (fun '(_, id) => procInfo_ <$> objects w !! id)
                  (entries w)) in *.
  cbn [fst snd].
  assert (Hentries : forall h id, In (h, id) (entries w) ->
            exists p, objects w !! id = Some p /\ handle p = h).
  { intros h id Hin. apply entries_lookup in Hin.
    now apply tableWellFormed_lookup. }
  assert (Hhandles : List.map handle_ infos = List.map fst (entries w))
    by now apply infos_handles.
  assert (Hnd : List.NoDup (List.map handle_ infos)).
  { rewrite Hhandles. apply entries_NoDup. }
  destruct (deserializeEntries_infos infos w0)
    as (w2 & Hw2 & _ & _ & Hother & Hmine).
  specialize (Hmine Hnd).
  assert (Hback : forall h pos p,
            s_procs w !! h = Some pos -> objects w !! pos = Some p ->
            exists pos2,
              s_procs w2 !! h = Some pos2
              /\ objects w2 !! pos2
                 = Some (new_fromInfo (Info.setIsStarted false (procInfo_ p)))).
  { intros h pos p Hs Ho.
    destruct (tableWellFormed_lookup w h pos Hwf Hs) as (p' & Hp' & Hh).
    assert (p' = p) by congruence. subst p'.
    destruct (Hmine (procInfo_ p)) as (pos2 & Hs2 & Ho2).
    { apply (infos_In _ _ h pos); [now apply entries_lookup|exact Ho]. }
    exists pos2. split; [|exact Ho2].
    now rewrite <- Hh. }
  exists w2. split; [|split; [|split]].
  - unfold deserializeConsoleProcs.
    apply String.eqb_neq in Hne. now rewrite Hne, Hparse.
  - now destruct w.
  - apply set_eq. intros h. rewrite !elem_of_dom. split.
    + intros Hsome.
      destruct (in_dec string_dec h (List.map handle_ infos)) as [Hin|Hout].
      * rewrite Hhandles in Hin. apply in_map_iff in Hin
          as ([h' id] & Hfst & Hin). simpl in Hfst. subst h'.
        apply entries_lookup in Hin. eauto.
      * rewrite (Hother h Hout), Hempty, lookup_empty in Hsome.
        now destruct Hsome.
    + intros [pos Hs].
      destruct (tableWellFormed_lookup w h pos Hwf Hs) as (p & Hp & _).
      destruct (Hback h pos p Hs Hp) as (pos2 & Hs2 & _). eauto.
  - intros h pos p Hfind. unfold find in Hfind.
    destruct (s_procs w !! h) as [pos'|] eqn:Hs; [|discriminate].
    simpl in Hfind.
    destruct (objects w !! pos') as [p'|] eqn:Ho; [|discriminate].
    simpl in Hfind. injection Hfind as -> ->.
    destruct (Hback h pos p Hs Ho) as (pos2 & Hs2 & Ho2).
    exists pos2, (new_fromInfo (Info.setIsStarted false (procInfo_ p))).
    split; [|split].
    + unfold find. rewrite Hs2. simpl. now rewrite Ho2.
    + now destruct (procInfo_ p).
    + reflexivity.
Qed.

End Table.

(** * Concrete runs *)

Section Runs.

Import ConsoleProcess.

(** C3, counterexample. A process has an interrupt with echo in its queue
    and is interrupted; the next tick calls no process operation (no
    interrupt signal reaches the process), echoes nothing, and leaves the
    flag set. *)
Lemma interrupt_flag_sends_no_signal :
  let p :=
    interrupt (enqueInput (Input.mk true "" true) Sample.modalProc) in
  let r := onContinue p Sample.env0 in
  fst (fst r) = false
  /\ opsCalls (snd r) = []
  /\ storedOutput (snd (fst r)) (snd r) = storedOutput p Sample.env0
  /\ interrupt_ (snd (fst r)) = true.
Proof. repeat split. Qed.

(** C9, witness: a started terminal, and a program the supervisor cannot
    launch. *)
Lemma start_is_idempotent_and_reports_launch_failure_witness :
  (let p := with_procInfo (Info.setIsStarted true (procInfo_ Sample.terminalProc))
              Sample.terminalProc in
   @start Sample.host p Sample.env0 = (Success, p, Sample.env0))
  /\ isStarted
       (snd (fst (@start Sample.host Sample.missingProc Sample.env0))) = false.
Proof.
  split.
  - apply (proj1 (@start_is_idempotent_and_reports_launch_failure Sample.host
                    _ Sample.env0)).
    reflexivity.
  - apply (proj2 (@start_is_idempotent_and_reports_launch_failure Sample.host
                    Sample.missingProc Sample.env0) "no such file");
      reflexivity.
Defined.

(** C6, witness: a terminal tab after two appends. *)
Lemma getSavedBuffer_returns_the_log_file_witness :
  let r := appendAll ["ls" +:+ str1 lf; "a.txt" +:+ str1 lf]
             Sample.terminalProc Sample.env0 in
  getSavedBuffer (fst r) (snd r)
  = getSavedBuffer Sample.terminalProc Sample.env0
    +:+ String.concat "" ["ls" +:+ str1 lf; "a.txt" +:+ str1 lf].
Proof.
  apply (proj1 (proj2 (getSavedBuffer_returns_the_log_file
                         ["ls" +:+ str1 lf; "a.txt" +:+ str1 lf]
                         Sample.terminalProc Sample.env0 eq_refl eq_refl)));
    [discriminate|reflexivity].
Defined.

(** C6, counterexample. A modal console has produced the output "hello";
    its output storage, the embedded buffer, holds it after the line feed
    the constructor put there, and [getSavedBuffer] returns the empty
    string. *)
Lemma getSavedBuffer_misses_the_embedded_buffer :
  let r := enqueOutputEvent "hello" false Sample.modalProc Sample.env0 in
  terminalSequence_ (procInfo_ (fst r)) = kNoTerminal
  /\ storedOutput (fst r) (snd r) = str1 lf +:+ "hello"
  /\ getSavedBuffer (fst r) (snd r) = "".
Proof. repeat split. Qed.

(** C5, witness: the terminal tab "T1" is in the table and started. *)
Lemma createTerminalProcess_reattaches_to_started_process_witness :
  fst (@createTerminalProcess Sample.host Sample.options0 Sample.terminalInfo
         Sample.world0) = 0%nat.
Proof.
  apply (@createTerminalProcess_reattaches_to_started_process Sample.host
           Sample.options0 Sample.options0 Sample.terminalInfo
           Sample.terminalInfo Sample.world0 0%nat Sample.startedTerminal);
    try reflexivity.
  discriminate.
Defined.

(** C10, witness: a smart terminal receives a line ending in CR LF and
    then what would be a password prompt elsewhere. *)
Lemma smart_terminal_forwards_chunks_and_hides_buffer_witness :
  clientEvents
    (snd (@onStdoutAll Sample.host
            ["a" +:+ str1 cr +:+ str1 lf; "Password: "]
            Sample.smartProc Sample.env0))
  = [ConsoleProcessOutput "T1" false ("a" +:+ str1 cr +:+ str1 lf);
     ConsoleProcessOutput "T1" false "Password: "]
  /\ bufferedOutput Sample.smartProc = "".
Proof.
  pose proof (@smart_terminal_forwards_chunks_and_hides_buffer Sample.host
                ["a" +:+ str1 cr +:+ str1 lf; "Password: "] "" ""
                Sample.smartProc Sample.env0 eq_refl)
    as (_ & Hev & _ & Hb & _).
  split; [rewrite Hev; reflexivity|exact Hb].
Defined.

(** C1, at the failing input. The chunk "x", backspace, ": " has no line
    feed, so all of it is the prompt candidate; it contains a backspace
    and it matches the prompt pattern. With no handler attached the
    session queues the output event for it and, after that, a prompt
    event. *)
Theorem backspace_candidate_is_output_and_prompt :
  let chunk := "x" +:+ str1 bs +:+ ": " in
  smartTerminal (options_ Sample.modalProc) = false
  /\ onPrompt_ Sample.modalProc = None
  /\ regex_search chunk (controlCharsPattern_ Sample.modalProc) = true
  /\ regex_match chunk (promptPattern_ Sample.modalProc) = true
  /\ clientEvents
       (snd (maybeConsolePrompt chunk Sample.modalProc Sample.env0))
     = [ConsoleProcessOutput "M1" false chunk; ConsoleProcessPrompt "M1" chunk]
  /\ clientEvents
       (snd (@onStdout Sample.host chunk Sample.modalProc Sample.env0))
     = [ConsoleProcessOutput "M1" false chunk; ConsoleProcessPrompt "M1" chunk].
Proof. cbv zeta. repeat split; vm_compute; reflexivity. Qed.

(** The three chunks the specification names behave as it says, but for
    the second, which is queued as output twice. *)
Example password_prompt_is_a_prompt :
  clientEvents
    (snd (@onStdout Sample.host "Password: " Sample.modalProc Sample.env0))
  = [ConsoleProcessPrompt "M1" "Password: "].
Proof. vm_compute. reflexivity. Qed.

Example carriage_return_candidate_is_output_twice :
  clientEvents
    (snd (@onStdout Sample.host ("Password: " +:+ str1 cr) Sample.modalProc
            Sample.env0))
  = [ConsoleProcessOutput "M1" false ("Password: " +:+ str1 cr);
     ConsoleProcessOutput "M1" false ("Password: " +:+ str1 cr)].
Proof. vm_compute. reflexivity. Qed.

Example complete_line_is_output :
  clientEvents
    (snd (@onStdout Sample.host ("done" +:+ str1 lf) Sample.modalProc
            Sample.env0))
  = [ConsoleProcessOutput "M1" false ("done" +:+ str1 lf)].
Proof. vm_compute. reflexivity. Qed.

(** C8, witness: the table with the terminal tab and the modal console,
    written and read back by the JSON writer and parser of the sample
    host. *)
Lemma deserialize_serialize_keeps_handles_and_metadata_witness :
  exists w2,
    @deserializeConsoleProcs Sample.host
      (fst (@serializeConsoleProcs Sample.host false Sample.world0))
      Sample.emptyWorld = Some w2
    /\ dom (s_procs w2) = dom (s_procs Sample.world0).
Proof.
  destruct (@deserialize_serialize_keeps_handles_and_metadata Sample.host
              Sample.world0 Sample.emptyWorld)
    as (w2 & Hw2 & _ & Hdom & _).
  - vm_compute. reflexivity.
  - reflexivity.
  - vm_compute. discriminate.
  - vm_compute. reflexivity.
  - exists w2. split; assumption.
Defined.

End Runs.

(** * Further properties *)

(** ** A tick of the scheduler *)

Section Tick.

Import ConsoleProcess.

Context `{Host}.

Lemma concat_cons (x : string) (l : list string) :
  String.concat "" (x :: l) = x +:+ String.concat "" l.
Proof.
  destruct l; [|reflexivity].
  cbn [String.concat]. now rewrite append_empty_r.
Qed.

Lemma appendToOutputBuffer_size (s : string) (p : t) (e : Env) :
  newCols_ (fst (appendToOutputBuffer s p e)) = newCols_ p
  /\ newRows_ (fst (appendToOutputBuffer s p e)) = newRows_ p
  /\ childProcsSent_ (fst (appendToOutputBuffer s p e)) = childProcsSent_ p.
Proof.
  unfold appendToOutputBuffer, getLogFilePath.
  destruct (terminalSequence_ (procInfo_ p) =? kNoTerminal); [simpl; tauto|].
  destruct (FS.ensureDirectory (fileSystem e)); simpl; tauto.
Qed.

(** What one queued input does: one process operation, no client event,
    and its echo in the output storage. *)
Lemma processInput_effect (input : Input.t) (p : t) (e : Env) :
  sameSession p (fst (processInput input p e))
  /\ newCols_ (fst (processInput input p e)) = newCols_ p
  /\ newRows_ (fst (processInput input p e)) = newRows_ p
  /\ opsCalls (snd (processInput input p e))
     = (opsCalls e ++ [opOf input])%list
  /\ clientEvents (snd (processInput input p e)) = clientEvents e
  /\ storageInOrder (fst (processInput input p e))
       (snd (processInput input p e)) = storageInOrder p e
  /\ (storageInOrder p e = true ->
      storedOutput (fst (processInput input p e))
        (snd (processInput input p e))
      = storedOutput p e +:+ echoOf (smartTerminal (options_ p)) input).
Proof.
  assert (Hplain : forall c,
            sameSession p p
            /\ newCols_ p = newCols_ p /\ newRows_ p = newRows_ p
            /\ opsCalls (opCall c e) = (opsCalls e ++ [c])%list
            /\ clientEvents (opCall c e) = clientEvents e
            /\ storageInOrder p (opCall c e) = storageInOrder p e
            /\ (storageInOrder p e = true ->
                storedOutput p (opCall c e) = storedOutput p e +:+ "")).
  { intros c. unfold sameSession. rewrite append_empty_r.
    repeat split; reflexivity. }
  assert (Happend : forall c s,
            let r := appendToOutputBuffer s p (opCall c e) in
            sameSession p (fst r)
            /\ newCols_ (fst r) = newCols_ p /\ newRows_ (fst r) = newRows_ p
            /\ opsCalls (snd r) = (opsCalls e ++ [c])%list
            /\ clientEvents (snd r) = clientEvents e
            /\ storageInOrder (fst r) (snd r) = storageInOrder p e
            /\ (storageInOrder p e = true ->
                storedOutput (fst r) (snd r) = storedOutput p e +:+ s)).
  { intros c s. cbv zeta.
    destruct (appendToOutputBuffer_frame s p (opCall c e))
      as [Hs (Hev & Hops & _)].
    destruct (appendToOutputBuffer_size s p (opCall c e)) as (Hc & Hr & _).
    pose proof (appendToOutputBuffer_in_order s p (opCall c e)) as Hio.
    pose proof (appendToOutputBuffer_stored s p (opCall c e)) as Hst.
    split; [exact Hs|]. split; [exact Hc|]. split; [exact Hr|].
    split; [rewrite Hops; reflexivity|]. split; [exact Hev|].
    split; [exact Hio|exact Hst]. }
  unfold processInput, opOf, echoOf.
  destruct (Input.interrupt input), (Input.echoInput input),
    (smartTerminal (options_ p)); simpl;
    first [apply Happend | apply Hplain].
Qed.

Lemma drainInputQueue_effect (queue : list Input.t) (p : t) (e : Env) :
  inputQueue_ (fst (drainInputQueue queue p e)) = []
  /\ options_ (fst (drainInputQueue queue p e)) = options_ p
  /\ handle (fst (drainInputQueue queue p e)) = handle p
  /\ interrupt_ (fst (drainInputQueue queue p e)) = interrupt_ p
  /\ newCols_ (fst (drainInputQueue queue p e)) = newCols_ p
  /\ newRows_ (fst (drainInputQueue queue p e)) = newRows_ p
  /\ opsCalls (snd (drainInputQueue queue p e))
     = (opsCalls e ++ List.map opOf queue)%list
  /\ clientEvents (snd (drainInputQueue queue p e)) = clientEvents e
  /\ storageInOrder (fst (drainInputQueue queue p e))
       (snd (drainInputQueue queue p e)) = storageInOrder p e
  /\ (storageInOrder p e = true ->
      storedOutput (fst (drainInputQueue queue p e))
        (snd (drainInputQueue queue p e))
      = storedOutput p e
        +:+ String.concat ""
              (List.map (echoOf (smartTerminal (options_ p))) queue)).
Proof.
  revert p e. induction queue as [|input rest IH]; intros p e;
    cbn [drainInputQueue List.map].
  - cbn [fst snd String.concat]. rewrite app_nil_r, append_empty_r.
    repeat split; reflexivity.
  - destruct (processInput_effect input (with_inputQueue rest p) e)
      as ((Ho & Hh & _ & _ & _ & Hi & _) & Hc & Hr & Hops & Hev & Hio & Hst).
    destruct (processInput input (with_inputQueue rest p) e) as [p1 e1].
    cbn [fst snd] in *.
    destruct (IH p1 e1)
      as (Hq' & Ho' & Hh' & Hi' & Hc' & Hr' & Hops' & Hev' & Hio' & Hst').
    rewrite Hq', Ho', Hh', Hi', Hc', Hr', Hops', Hev', Hio', Ho, Hh, Hi, Hc,
      Hr, Hops, Hev, Hio, <- app_assoc.
    repeat split; try reflexivity.
    intros Hok. rewrite Hst' by (rewrite Hio; exact Hok).
    rewrite Ho, (Hst Hok), append_assoc, concat_cons. reflexivity.
Qed.

(** X1. A tick that finds the interrupt flag clear keeps the process
    running, empties the input queue, and makes one process operation for
    each queued input, in the order they were queued (an interrupt of the
    terminal for an interrupt input, a write to standard input for a
    text), followed by the requested size when one is pending; it queues
    no client event. *)
Theorem onContinue_delivers_queue_in_order (p : t) (e : Env) :
  interrupt_ p = false ->
  fst (fst (onContinue p e)) = true
  /\ inputQueue_ (snd (fst (onContinue p e))) = []
  /\ opsCalls (snd (onContinue p e))
     = (opsCalls e ++ List.map opOf (inputQueue_ p)
        ++ (if sizePending p then [PtySetSize (newCols_ p) (newRows_ p)]
            else []))%list
  /\ clientEvents (snd (onContinue p e)) = clientEvents e.
Proof.
  intros Hi. unfold onContinue, sizePending. rewrite Hi.
  destruct (drainInputQueue_effect (inputQueue_ p) p e)
    as (Hq & _ & _ & _ & Hc & Hr & Hops & Hev & _).
  destruct (drainInputQueue (inputQueue_ p) p e) as [p1 e1]. simpl in *.
  rewrite Hc, Hr.
  destruct (negb (newCols_ p =? -1) && negb (newRows_ p =? -1)); simpl.
  - rewrite Hops, Hev, <- app_assoc. repeat split; try reflexivity. exact Hq.
  - rewrite Hops, Hev, app_nil_r. repeat split; try reflexivity. exact Hq.
Qed.


Lemma with_inputQueue_same (p : t) :
  inputQueue_ p = [] -> with_inputQueue [] p = p.
Proof. destruct p. simpl. now intros ->. Qed.

(** X3. Of several sizes requested between two ticks the last one is
    sent, once: the tick that follows sends it after the queued inputs and
    forgets it, so that the tick after that one does nothing at all. A
    request in which the columns or the rows are -1, the value that marks
    "nothing pending", is not sent and stays as it is. *)
Theorem resize_last_request_is_sent_once (c1 r1 c2 r2 : Z) (p : t) (e : Env) :
  interrupt_ p = false ->
  let requested := resize c2 r2 (resize c1 r1 p) in
  let after := onContinue requested e in
  (c2 <> -1 -> r2 <> -1 ->
   opsCalls (snd after)
   = (opsCalls e ++ List.map opOf (inputQueue_ p) ++ [PtySetSize c2 r2])%list
   /\ onContinue (snd (fst after)) (snd after)
      = (true, snd (fst after), snd after))
  /\ (c2 = -1 \/ r2 = -1 ->
      opsCalls (snd after)
      = (opsCalls e ++ List.map opOf (inputQueue_ p))%list
      /\ newCols_ (snd (fst after)) = c2
      /\ newRows_ (snd (fst after)) = r2).
Proof.
  intros Hi. cbv zeta.
  set (requested := resize c2 r2 (resize c1 r1 p)).
  assert (Hri : interrupt_ requested = false) by exact Hi.
  destruct (drainInputQueue_effect (inputQueue_ requested) requested e)
    as (Hq & _ & _ & Hdi & Hc & Hr & Hops & _).
  unfold onContinue. rewrite Hri.
  destruct (drainInputQueue (inputQueue_ requested) requested e)
    as [p1 e1] eqn:Hd.
  cbn [fst snd] in *.
  change (newCols_ requested) with c2 in Hc.
  change (newRows_ requested) with r2 in Hr.
  change (inputQueue_ requested) with (inputQueue_ p) in Hops.
  rewrite Hc, Hr. split.
  - intros Hc2 Hr2.
    apply Z.eqb_neq in Hc2, Hr2. rewrite Hc2, Hr2. cbn [negb andb fst snd].
    split.
    + cbn [opCall opsCalls]. now rewrite Hops, <- app_assoc.
    + change (interrupt_ (with_size (-1) (-1) p1)) with (interrupt_ p1).
      rewrite Hdi, Hri.
      change (inputQueue_ (with_size (-1) (-1) p1)) with (inputQueue_ p1).
      rewrite Hq. cbn [drainInputQueue].
      rewrite with_inputQueue_same by exact Hq. reflexivity.
  - intros Hminus.
    assert (Hnot : negb (c2 =? -1) && negb (r2 =? -1) = false).
    { destruct Hminus as [->| ->]; [reflexivity|].
      now rewrite andb_false_r. }
    rewrite Hnot. cbn [fst snd]. rewrite Hops, Hc, Hr. now repeat split.
Qed.

(** X4. [onHasSubprocs] reports a value once: the first report of a
    process always queues the event; reporting the value again changes
    nothing; and after any report the entry holds the reported value. *)
Theorem onHasSubprocs_reports_a_value_once (hasSubprocs : bool) (p : t)
    (e : Env) :
  let first := onHasSubprocs hasSubprocs p e in
  onHasSubprocs hasSubprocs (fst first) (snd first) = first
  /\ hasChildProcs_ (procInfo_ (fst first)) = hasSubprocs
  /\ (childProcsSent_ p = false ->
      clientEvents (snd first)
      = (clientEvents e ++ [TerminalSubprocs (handle p) hasSubprocs])%list)
  /\ (childProcsSent_ p = true ->
      hasChildProcs_ (procInfo_ p) = hasSubprocs -> first = (p, e)).
Proof.
  cbv zeta. unfold onHasSubprocs.
  destruct (childProcsSent_ p) eqn:Hsent;
    destruct (Bool.eqb hasSubprocs (hasChildProcs_ (procInfo_ p))) eqn:Heq;
    cbn [negb orb fst snd].
  - apply Bool.eqb_prop in Heq. rewrite Hsent, <- Heq, Bool.eqb_reflx.
    repeat split; try reflexivity; discriminate.
  - cbn [with_childProcsSent with_procInfo procInfo_ childProcsSent_
         Info.setHasChildProcs hasChildProcs_].
    rewrite Bool.eqb_reflx. cbn [negb orb].
    repeat split; try discriminate.
    intros _ Hsame. rewrite Hsame, Bool.eqb_reflx in Heq. discriminate.
  - cbn [with_childProcsSent with_procInfo procInfo_ childProcsSent_
         Info.setHasChildProcs hasChildProcs_].
    rewrite Bool.eqb_reflx. cbn [negb orb].
    repeat split; try discriminate.
  - cbn [with_childProcsSent with_procInfo procInfo_ childProcsSent_
         Info.setHasChildProcs hasChildProcs_].
    rewrite Bool.eqb_reflx. cbn [negb orb].
    repeat split; try discriminate.
Qed.

End Tick.

(** ** Output chunks *)

Section Chunks.

Import ConsoleProcess.

Context `{Host}.

Lemma length_string_of_list (w : list ascii) :
  String.length (string_of_list_ascii w) = length w.
Proof. induction w as [|c w IH]; simpl; congruence. Qed.

Lemma substring_prefix (w1 rest : list ascii) :
  String.substring 0 (length w1) (string_of_list_ascii (w1 ++ rest))
  = string_of_list_ascii w1.
Proof.
  induction w1 as [|c w1 IH]; simpl.
  - now destruct (string_of_list_ascii rest).
  - now rewrite IH.
Qed.

Lemma substring_skip (w1 rest : list ascii) (m : nat) :
  String.substring (length w1) m (string_of_list_ascii (w1 ++ rest))
  = String.substring 0 m (string_of_list_ascii rest).
Proof. induction w1 as [|c w1 IH]; simpl; [reflexivity|exact IH]. Qed.

Lemma substring_whole (s : string) : String.substring 0 (String.length s) s = s.
Proof. induction s as [|c s IH]; simpl; [reflexivity|now rewrite IH]. Qed.

Lemma find_last_of_from_spec (w set : list ascii) (k : nat)
    (found : option nat) :
  match find_last_of_from w set k found with
  | Some n =>
      (found = Some n
       /\ forallb (fun c => negb (existsb (Ascii.eqb c) set)) w = true)
      \/ (exists w1 c w2,
            w = (w1 ++ c :: w2)%list /\ n = (k + length w1)%nat
            /\ existsb (Ascii.eqb c) set = true
            /\ forallb (fun c => negb (existsb (Ascii.eqb c) set)) w2 = true)
  | None =>
      found = None
      /\ forallb (fun c => negb (existsb (Ascii.eqb c) set)) w = true
  end.
Proof.
  revert k found. induction w as [|c w IH]; intros k found; simpl.
  - destruct found; auto.
  - specialize (IH (S k) (if existsb (Ascii.eqb c) set then Some k else found)).
    destruct (find_last_of_from w set (S k) _) as [n|].
    + destruct IH as [[Hf Hclean]|(w1 & c' & w2 & -> & -> & Hc' & Hclean)].
      * destruct (existsb (Ascii.eqb c) set) eqn:Hc.
        -- injection Hf as <-. right. exists [], c, w.
           repeat split; [simpl; f_equal; lia|exact Hc|exact Hclean].
        -- left. now split.
      * right. exists (c :: w1), c', w2.
        repeat split; [simpl; lia|exact Hc'|exact Hclean].
    + destruct IH as [Hf Hclean].
      destruct (existsb (Ascii.eqb c) set); [discriminate|now split].
Qed.

Lemma existsb_line_break (c : ascii) :
  existsb (Ascii.eqb c) (chars (String lf (str1 ff))) = isLineBreak c.
Proof. unfold isLineBreak. simpl. now rewrite orb_false_r. Qed.

(** Where [find_last_of] with the line feed and the form feed points. *)
Lemma find_last_line_break (s : string) :
  match find_last_of s (String lf (str1 ff)) with
  | Some lastLoc =>
      exists c,
        isLineBreak c = true
        /\ s = substr s 0 lastLoc +:+ String c (substr_from s (lastLoc + 1))
        /\ forallb (fun c => negb (isLineBreak c))
             (chars (substr_from s (lastLoc + 1))) = true
  | None => forallb (fun c => negb (isLineBreak c)) (chars s) = true
  end.
Proof.
  unfold find_last_of.
  pose proof (find_last_of_from_spec (chars s) (chars (String lf (str1 ff)))
                0 None) as Hspec.
  assert (Hext : forall w,
            forallb (fun c => negb (existsb (Ascii.eqb c)
                                      (chars (String lf (str1 ff))))) w
            = forallb (fun c => negb (isLineBreak c)) w).
  { intros w. induction w as [|c w IH]; [reflexivity|].
    cbn [forallb]. now rewrite existsb_line_break, IH. }
  destruct (find_last_of_from (chars s) _ 0 None) as [n|].
  - destruct Hspec as [[Hf _]|(w1 & c & w2 & Hs & -> & Hc & Hclean)];
      [discriminate|].
    rewrite existsb_line_break in Hc. rewrite Hext in Hclean.
    assert (Hs' : s = string_of_list_ascii (w1 ++ c :: w2)).
    { now rewrite <- Hs, string_of_chars. }
    exists c. simpl (0 + length w1)%nat.
    assert (Hhead : substr s 0 (length w1) = string_of_list_ascii w1).
    { unfold substr. rewrite Hs'. apply substring_prefix. }
    assert (Htail : substr_from s (length w1 + 1) = string_of_list_ascii w2).
    { unfold substr_from. rewrite Hs'.
      replace (w1 ++ c :: w2)%list with ((w1 ++ [c]) ++ w2)%list
        by now rewrite <- app_assoc.
      replace (length w1 + 1)%nat with (length (w1 ++ [c]))
        by (rewrite length_app; reflexivity).
      rewrite substring_skip, length_string_of_list, length_app.
      replace (length (w1 ++ [c]) + length w2 - length (w1 ++ [c]))%nat
        with (String.length (string_of_list_ascii w2))
        by (rewrite length_string_of_list; lia).
      apply substring_whole. }
    rewrite Hhead, Htail, chars_of_list. repeat split; try assumption.
    rewrite Hs' at 1. now rewrite string_of_list_app.
  - destruct Hspec as [_ Hclean]. now rewrite Hext in Hclean.
Qed.

(** X5. On a terminal that is not smart, a chunk whose text, after the
    conversion of line endings, does not end in a line feed is cut at its
    last line feed or form feed: the text before that character is queued
    as output, the text after it, which holds no line feed and no form
    feed, is examined as a prompt, and the character itself is in neither
    part. Without such a character the whole text is examined as a
    prompt. *)
Theorem onStdout_cuts_at_last_line_break (output : string) (p : t) (e : Env) :
  smartTerminal (options_ p) = false ->
  ends_with (convertLineEndingsPosix output) (str1 lf) = false ->
  let posix := convertLineEndingsPosix output in
  match find_last_of posix (String lf (str1 ff)) with
  | Some lastLoc =>
      (exists c,
         isLineBreak c = true
         /\ posix = substr posix 0 lastLoc
                    +:+ String c (substr_from posix (lastLoc + 1))
         /\ forallb (fun c => negb (isLineBreak c))
              (chars (substr_from posix (lastLoc + 1))) = true)
      /\ onStdout output p e
         = maybeConsolePrompt (substr_from posix (lastLoc + 1))
             (fst (enqueOutputEvent (substr posix 0 lastLoc) false p e))
             (snd (enqueOutputEvent (substr posix 0 lastLoc) false p e))
  | None =>
      forallb (fun c => negb (isLineBreak c)) (chars posix) = true
      /\ onStdout output p e = maybeConsolePrompt posix p e
  end.
Proof.
  intros Hs He. cbv zeta.
  pose proof (find_last_line_break (convertLineEndingsPosix output)) as Hcut.
  unfold onStdout. rewrite Hs, He.
  destruct (find_last_of (convertLineEndingsPosix output) _) as [lastLoc|].
  - split; [exact Hcut|].
    now destruct (enqueOutputEvent _ false p e).
  - now split.
Qed.

Lemma enqueOutputEvent_channels (output : string) (error : bool) (p : t)
    (e : Env) :
  opsCalls (snd (enqueOutputEvent output error p e)) = opsCalls e
  /\ passwordManager (snd (enqueOutputEvent output error p e))
     = passwordManager e
  /\ supervisorCalls (snd (enqueOutputEvent output error p e))
     = supervisorCalls e.
Proof.
  rewrite enqueOutputEvent_eq. simpl.
  destruct (appendToOutputBuffer_frame output p e) as [_ (_ & Ho & Hs & Hp & _)].
  auto.
Qed.

(** X6. Chunks that end in a line feed after the conversion of line
    endings are output and nothing else, whatever prompt handler is
    attached: each adds one output event for its converted text, trimmed
    to the maximum number of lines; the handler is not consulted (the
    password manager is as before), nothing is queued as input and no
    process operation is made. *)
Theorem complete_lines_are_never_prompts (chunks : list string) (p : t)
    (e : Env) :
  smartTerminal (options_ p) = false ->
  Forall (fun output =>
            ends_with (convertLineEndingsPosix output) (str1 lf) = true)
    chunks ->
  clientEvents (snd (onStdoutAll chunks p e))
  = (clientEvents e
     ++ List.map
          (fun output =>
             ConsoleProcessOutput (handle p) false
               (trimLeadingLines (maxOutputLines_ (procInfo_ p))
                  (convertLineEndingsPosix output)))
          chunks)%list
  /\ passwordManager (snd (onStdoutAll chunks p e)) = passwordManager e
  /\ opsCalls (snd (onStdoutAll chunks p e)) = opsCalls e
  /\ inputQueue_ (fst (onStdoutAll chunks p e)) = inputQueue_ p.
Proof.
  intros Hs Hall. revert p e Hs.
  induction Hall as [|output rest Hend _ IH]; intros p e Hs; simpl.
  - rewrite app_nil_r. auto.
  - unfold onStdout at 1 2 3 4. rewrite Hs, Hend.
    destruct (enqueOutputEvent_frame (convertLineEndingsPosix output) false p e)
      as [(Ho & Hh & Hm & _ & _ & _ & Hq & _) Hev].
    destruct (enqueOutputEvent_channels (convertLineEndingsPosix output)
                false p e) as (Hops & Hpm & _).
    destruct (enqueOutputEvent (convertLineEndingsPosix output) false p e)
      as [p1 e1]. cbn [fst snd] in *.
    destruct (IH p1 e1) as (Hev' & Hpm' & Hops' & Hq'); [congruence|].
    rewrite Hev', Hpm', Hops', Hq', Hev, Hh, Hm, <- app_assoc.
    repeat split; assumption.
Qed.

(** X7. A failure of the output storage is dropped, not raised. For a
    terminal tab whose scratch directory cannot be had or whose log file
    cannot be written, appending changes nothing, and the output event is
    queued all the same; where the directory cannot be had or the file
    cannot be read, [getSavedBuffer] returns the empty string. *)
Theorem storage_failure_is_dropped (output : string) (error : bool) (p : t)
    (e : Env) :
  terminalSequence_ (procInfo_ p) <> kNoTerminal ->
  (dirAvailable (fileSystem e) = false \/ writable (fileSystem e) = false ->
   appendToOutputBuffer output p e = (p, e)
   /\ enqueOutputEvent output error p e
      = (p, enqueClientEvent
              (ConsoleProcessOutput (handle p) error
                 (trimLeadingLines (maxOutputLines_ (procInfo_ p)) output))
              e))
  /\ (dirAvailable (fileSystem e) = false \/ readable (fileSystem e) = false ->
      getSavedBuffer p e = "").
Proof.
  intros Ht. apply Z.eqb_neq in Ht. split.
  - intros Hfail.
    assert (Happ : appendToOutputBuffer output p e = (p, e)).
    { unfold appendToOutputBuffer, getLogFilePath, FS.ensureDirectory,
        FS.appendToFile.
      rewrite Ht.
      destruct (dirAvailable (fileSystem e)) eqn:Hd; [|reflexivity].
      destruct Hfail as [Hfail|Hfail]; [discriminate|].
      rewrite Hfail. simpl. now destruct e. }
    split; [exact Happ|].
    rewrite enqueOutputEvent_eq, Happ. reflexivity.
  - intros Hfail.
    unfold getSavedBuffer, getLogFilePath, FS.ensureDirectory, FS.exists_,
      FS.readStringFromFile.
    destruct (dirAvailable (fileSystem e)) eqn:Hd; [|reflexivity].
    destruct Hfail as [Hfail|Hfail]; [discriminate|].
    rewrite Hfail. now destruct (bool_decide _).
Qed.

End Chunks.

(** ** The password manager at work *)

Section PasswordsAtWork.

Import ConsoleProcess.

Lemma find_app_last {A} (f : A -> bool) (l : list A) (x : A) :
  List.find f l = None -> f x = true -> List.find f (l ++ [x]) = Some x.
Proof.
  intros Hn Hx. induction l as [|y l IH]; simpl in *.
  - now rewrite Hx.
  - destruct (f y); [discriminate|]. now apply IH.
Qed.

Lemma answer_is_not_empty (pw : string) (echo : bool) :
  Input.empty (Input.of_text (pw +:+ str1 lf) echo) = false.
Proof. now destruct pw. Qed.

Lemma handlePrompt_hit (h p : string) (showRememberOption : bool)
    (pm : PasswordManager.t) (it : PasswordManager.CachedPassword) :
  regex_match p (PasswordManager.promptPattern_ pm) = true ->
  List.find (fun c => PasswordManager.hasPrompt c p)
    (PasswordManager.passwords_ pm) = Some it ->
  PasswordManager.handlePrompt h p showRememberOption pm
  = (Some (Input.of_text (PasswordManager.password it +:+ str1 lf) false), pm).
Proof.
  intros Hm Hf. unfold PasswordManager.handlePrompt. now rewrite Hm, Hf.
Qed.

(** X8. A password typed at the interactive callback is cached under the
    prompt text, with the handle and the remember flag, at the end of the
    cache; the next request with that prompt text, from any handle, is
    answered with it and the callback is not called again. *)
Theorem handlePrompt_caches_the_typed_password (h h' p pw : string)
    (showRememberOption showRememberOption' rem : bool)
    (pm : PasswordManager.t) :
  regex_match p (PasswordManager.promptPattern_ pm) = true ->
  (forall c, In c (PasswordManager.passwords_ pm) ->
             PasswordManager.prompt c <> p) ->
  PasswordManager.promptHandler_ pm p showRememberOption = Some (pw, rem) ->
  let first := PasswordManager.handlePrompt h p showRememberOption pm in
  fst first = Some (Input.of_text (pw +:+ str1 lf) false)
  /\ PasswordManager.passwords_ (snd first)
     = (PasswordManager.passwords_ pm
        ++ [PasswordManager.mkCachedPassword h p pw rem])%list
  /\ PasswordManager.promptHandlerCalls (snd first)
     = (PasswordManager.promptHandlerCalls pm ++ [(p, showRememberOption)])%list
  /\ PasswordManager.handlePrompt h' p showRememberOption' (snd first)
     = (Some (Input.of_text (pw +:+ str1 lf) false), snd first).
Proof.
  intros Hm Hnone Hans. cbv zeta.
  apply find_hasPrompt_None in Hnone.
  assert (Hfirst :
            PasswordManager.handlePrompt h p showRememberOption pm
            = (Some (Input.of_text (pw +:+ str1 lf) false),
               PasswordManager.mk (PasswordManager.promptPattern_ pm)
                 (PasswordManager.promptHandler_ pm)
                 (PasswordManager.passwords_ pm
                  ++ [PasswordManager.mkCachedPassword h p pw rem])
                 (PasswordManager.promptHandlerCalls pm
                  ++ [(p, showRememberOption)]))).
  { unfold PasswordManager.handlePrompt. now rewrite Hm, Hnone, Hans. }
  rewrite Hfirst.
  cbn [fst snd PasswordManager.passwords_ PasswordManager.promptHandlerCalls].
  repeat split.
  assert (Hfind :
            List.find (fun c => PasswordManager.hasPrompt c p)
              (PasswordManager.passwords_ pm
               ++ [PasswordManager.mkCachedPassword h p pw rem])
            = Some (PasswordManager.mkCachedPassword h p pw rem)).
  { apply find_app_last; [exact Hnone|].
    unfold PasswordManager.hasPrompt. simpl. apply String.eqb_refl. }
  apply (handlePrompt_hit h' p showRememberOption' _
           (PasswordManager.mkCachedPassword h p pw rem));
    [exact Hm|exact Hfind].
Qed.

(** X9. With the password manager attached, a prompt that matches the
    password pattern is never shown to the client: it is answered from
    the cache, or with what the callback returns, by queueing the
    password and a line feed, without echo, behind the inputs already
    queued; the process is terminated exactly when there is no cached
    password and the callback reports a cancellation. A prompt that does
    not match the pattern is passed to the client as a prompt event and
    leaves the manager alone. *)
Theorem attached_manager_answers_password_prompts (prompt : string)
    (showRememberOption : bool) (p : t) (e : Env) :
  let pm := passwordManager e in
  let attached := PasswordManager_attach showRememberOption p in
  let r := handleConsolePrompt prompt attached e in
  if regex_match prompt (PasswordManager.promptPattern_ pm) then
    clientEvents (snd r) = clientEvents e
    /\ passwordManager (snd r)
       = snd (PasswordManager.handlePrompt (handle p) prompt
                showRememberOption pm)
    /\ match List.find (fun c => PasswordManager.hasPrompt c prompt)
               (PasswordManager.passwords_ pm),
             PasswordManager.promptHandler_ pm prompt showRememberOption with
       | Some it, _ =>
           inputQueue_ (fst r)
           = (inputQueue_ p
              ++ [Input.of_text (PasswordManager.password it +:+ str1 lf) false])%list
           /\ opsCalls (snd r) = opsCalls e
       | None, Some (pw, _) =>
           inputQueue_ (fst r)
           = (inputQueue_ p ++ [Input.of_text (pw +:+ str1 lf) false])%list
           /\ opsCalls (snd r) = opsCalls e
       | None, None =>
           fst r = attached
           /\ opsCalls (snd r) = (opsCalls e ++ [Terminate])%list
       end
  else
    r = (attached,
         enqueClientEvent (ConsoleProcessPrompt (handle p) prompt) e).
Proof.
  cbv zeta. unfold handleConsolePrompt, PasswordManager_attach.
  cbn [setPromptHandler with_onPrompt with_onExit onPrompt_].
  unfold PasswordManager.handlePrompt.
  destruct (regex_match prompt
              (PasswordManager.promptPattern_ (passwordManager e))).
  - destruct (List.find _ (PasswordManager.passwords_ (passwordManager e)))
      as [it|].
    + rewrite answer_is_not_empty. cbn. repeat split.
    + destruct (PasswordManager.promptHandler_ (passwordManager e) prompt
                  showRememberOption) as [[pw rem]|].
      * rewrite answer_is_not_empty. cbn. repeat split.
      * cbn. repeat split.
  - destruct e; reflexivity.
Qed.

Lemma onExit_filter (h : string) (exitCode : Z) (pm : PasswordManager.t) :
  PasswordManager.passwords_ (PasswordManager.onExit h exitCode pm)
  = List.filter
      (fun c => negb (PasswordManager.hasHandle c h)
                || ((exitCode =? PasswordManager.EXIT_SUCCESS)
                    && PasswordManager.remember c))
      (PasswordManager.passwords_ pm).
Proof.
  unfold PasswordManager.onExit; simpl.
  destruct (exitCode =? PasswordManager.EXIT_SUCCESS); simpl;
    unfold PasswordManager.erase_remove_if; apply filter_ext; intros c;
    unfold PasswordManager.forgetOnExit;
    destruct (PasswordManager.hasHandle c h), (PasswordManager.remember c);
    reflexivity.
Qed.

(** X10. When a process with the password manager attached exits, its
    entry records the exit code, one exit event is queued, and the cache
    loses the passwords of that process's handle: all of them after a
    failing exit, those not to be remembered after a successful one. *)
Theorem exit_of_attached_process_purges_its_passwords (exitCode : Z)
    (showRememberOption : bool) (p : t) (e : Env) :
  onExit_ p = [] ->
  let r := onExit exitCode (PasswordManager_attach showRememberOption p) e in
  exitCode_ (procInfo_ (fst r)) = Some exitCode
  /\ clientEvents (snd r)
     = (clientEvents e ++ [ConsoleProcessExit (handle p) exitCode])%list
  /\ PasswordManager.passwords_ (passwordManager (snd r))
     = List.filter
         (fun c => negb (PasswordManager.hasHandle c (handle p))
                   || ((exitCode =? PasswordManager.EXIT_SUCCESS)
                       && PasswordManager.remember c))
         (PasswordManager.passwords_ (passwordManager e)).
Proof.
  intros Hslots. cbv zeta. unfold onExit, PasswordManager_attach.
  cbn [setPromptHandler with_onPrompt with_onExit with_procInfo onExit_
       procInfo_ fst snd]. rewrite Hslots.
  cbn. repeat split. apply onExit_filter.
Qed.

End PasswordsAtWork.

(** ** The remote calls and the table *)

Section Calls.

Import ConsoleProcess.

Context `{Host}.

Lemma find_None (h : string) (w : World) :
  s_procs w !! h = None -> find h w = None.
Proof. intros Hn. unfold find. now rewrite Hn. Qed.

Lemma find_Some (h : string) (w : World) (pos : nat) (p : t) :
  find h w = Some (pos, p) <->
  s_procs w !! h = Some pos /\ objects w !! pos = Some p.
Proof.
  unfold find. split.
  - destruct (s_procs w !! h) as [pos'|]; [|discriminate]. simpl.
    destruct (objects w !! pos') as [p'|] eqn:Hp; [|discriminate]. simpl.
    now intros [= -> ->].
  - intros [-> Hp]. simpl. now rewrite Hp.
Qed.

(** X11. A handle that is not in the table: every remote call returns
    the invalid-argument error and leaves the table, the processes, the
    files and the event queue as they are. *)
Theorem unknown_handle_is_refused (crypto : Crypto) (h text : string)
    (input : Input.t) (c r : Z) (w : World) :
  s_procs w !! h = None ->
  procStart h w = (invalid_argument, w)
  /\ procInterrupt h w = (invalid_argument, w)
  /\ procReap h w = (invalid_argument, w)
  /\ procWriteStdin crypto h input w = (invalid_argument, w)
  /\ procSetSize h c r w = (invalid_argument, w)
  /\ procSetCaption h text w = (invalid_argument, w)
  /\ procSetTitle h text w = (invalid_argument, w)
  /\ procEraseBuffer h w = (invalid_argument, w)
  /\ procGetBuffer h w = (invalid_argument, None).
Proof.
  intros Hn. apply find_None in Hn.
  unfold procStart, procInterrupt, procReap, procWriteStdin, procSetSize,
    procSetCaption, procSetTitle, procEraseBuffer, procGetBuffer.
  rewrite Hn. repeat split.
Qed.

Lemma saveConsoleProcesses_index (w : World) :
  objects (saveConsoleProcesses true w) = objects w
  /\ s_procs (saveConsoleProcesses true w) = s_procs w
  /\ nextObject (saveConsoleProcesses true w) = nextObject w
  /\ handlesGenerated (saveConsoleProcesses true w) = handlesGenerated w
  /\ clientEvents (env (saveConsoleProcesses true w)) = clientEvents (env w)
  /\ opsCalls (env (saveConsoleProcesses true w)) = opsCalls (env w)
  /\ supervisorCalls (env (saveConsoleProcesses true w))
     = supervisorCalls (env w)
  /\ passwordManager (env (saveConsoleProcesses true w))
     = passwordManager (env w)
  /\ fileSystem (env (saveConsoleProcesses true w))
     = snd (FS.writeStringToFile kConsoleIndex
              (json_write (processesAsJson w)) (fileSystem (env w))).
Proof.
  unfold saveConsoleProcesses, serializeConsoleProcs. cbn [negb].
  rewrite serializeEntries_keeps, processesAsJson_infos. simpl.
  repeat split.
Qed.

Lemma processesAsJson_same (w w' : World) :
  objects w' = objects w -> s_procs w' = s_procs w ->
  processesAsJson w' = processesAsJson w.
Proof.
  intros Ho Hs. unfold processesAsJson, entries. now rewrite Ho, Hs.
Qed.

(** X12. Reaping a process that is in the table succeeds and removes its
    entry, and only that entry: the handle is unknown afterwards (a later
    call on it is refused), the other entries and all process objects are
    untouched; where the scratch directory can be had and written, the
    log file named by the process's handle is deleted and the index is
    rewritten for the table without the entry. *)
Theorem procReap_forgets_the_handle (h : string) (w : World) (pos : nat)
    (p : t) :
  find h w = Some (pos, p) ->
  let r := procReap h w in
  fst r = Success
  /\ s_procs (snd r) = delete h (s_procs w)
  /\ find h (snd r) = None
  /\ procStart h (snd r) = (invalid_argument, snd r)
  /\ procGetBuffer h (snd r) = (invalid_argument, None)
  /\ (forall h', h' <> h -> find h' (snd r) = find h' w)
  /\ objects (snd r) = objects w
  /\ (dirAvailable (fileSystem (env w)) = true ->
      writable (fileSystem (env w)) = true ->
      files (fileSystem (env (snd r)))
      = <[kConsoleIndex := json_write (processesAsJson (snd r))]>
          (delete (handle p) (files (fileSystem (env w))))).
Proof.
  intros Hf. cbv zeta. unfold procReap. rewrite Hf. cbn [fst snd].
  set (w1 := with_s_procs (delete h (s_procs (with_env _ w))) (with_env _ w)).
  destruct (saveConsoleProcesses_index w1)
    as (Ho & Hs & _ & _ & _ & _ & _ & _ & Hfs).
  assert (Hgone : s_procs (saveConsoleProcesses true w1) !! h = None).
  { rewrite Hs. apply lookup_delete_eq. }
  split; [reflexivity|]. split; [exact Hs|].
  split; [now apply find_None|].
  split; [unfold procStart; now rewrite (find_None _ _ Hgone)|].
  split; [unfold procGetBuffer; now rewrite (find_None _ _ Hgone)|].
  split; [|split; [exact Ho|]].
  - intros h' Hne. unfold find. rewrite Hs, Ho. subst w1. cbn.
    now rewrite lookup_delete_ne by congruence.
  - intros Hd Hw. rewrite Hfs.
    rewrite (processesAsJson_same w1 _ Ho Hs).
    subst w1. unfold deleteLogFile, getLogFilePath, FS.ensureDirectory,
      FS.removeIfExists, FS.writeStringToFile.
    rewrite Hd. cbn. rewrite Hw. cbn. now rewrite Hw.
Qed.

(** X13. Erasing the buffer and then getting it gives the empty string,
    where the log file can be written; the process objects, and with
    them the embedded buffer of a modal console, are not touched by the
    erasure. *)
Theorem erase_then_get_is_empty (h : string) (w : World) (pos : nat) (p : t) :
  find h w = Some (pos, p) ->
  writable (fileSystem (env w)) = true ->
  fst (procEraseBuffer h w) = Success
  /\ procGetBuffer h (snd (procEraseBuffer h w)) = (Success, Some "")
  /\ objects (snd (procEraseBuffer h w)) = objects w
  /\ s_procs (snd (procEraseBuffer h w)) = s_procs w
  /\ (forall name,
        name <> handle p ->
        files (fileSystem (env (snd (procEraseBuffer h w)))) !! name
        = files (fileSystem (env w)) !! name).
Proof.
  intros Hf Hw. unfold procEraseBuffer. rewrite Hf. cbn [fst snd].
  split; [reflexivity|]. split; [|split; [reflexivity|split; [reflexivity|]]].
  2:{ intros name Hne.
      unfold deleteLogFile, getLogFilePath, FS.ensureDirectory,
        FS.removeIfExists.
      destruct (dirAvailable (fileSystem (env w))); cbn; [|reflexivity].
      rewrite Hw. cbn. now rewrite lookup_delete_ne by congruence. }
  unfold procGetBuffer.
  assert (Hf' : find h (with_env (deleteLogFile p (env w)) w) = Some (pos, p))
    by exact Hf.
  rewrite Hf'. do 2 f_equal.
  unfold getSavedBuffer, deleteLogFile, getLogFilePath, FS.ensureDirectory,
    FS.removeIfExists, FS.exists_, FS.readStringFromFile.
  destruct (dirAvailable (fileSystem (env w))) eqn:Hd; cbn; rewrite ?Hd;
    [|reflexivity].
  rewrite Hw. cbn. rewrite Hd. cbn.
  rewrite lookup_delete_eq. reflexivity.
Qed.

(** *** Creating processes *)

Lemma commonInit_members (fresh : string) (p : t) :
  handle (commonInit fresh p)
  = (if String.eqb (handle p) "" then fresh else handle p)
  /\ redirectStdErrToStdOut (options_ (commonInit fresh p)) = true
  /\ terminateChildren (options_ (commonInit fresh p))
     = terminateChildren (options_ p)
  /\ smartTerminal (options_ (commonInit fresh p))
     = smartTerminal (options_ p)
  /\ command_ (commonInit fresh p) = command_ p
  /\ program_ (commonInit fresh p) = program_ p
  /\ isStarted (commonInit fresh p) = isStarted p
  /\ interrupt_ (commonInit fresh p) = interrupt_ p
  /\ inputQueue_ (commonInit fresh p) = inputQueue_ p
  /\ newCols_ (commonInit fresh p) = newCols_ p
  /\ newRows_ (commonInit fresh p) = newRows_ p
  /\ Info.bufferedOutput (procInfo_ (commonInit fresh p))
     = Info.bufferedOutput (procInfo_ p) +:+ str1 lf.
Proof.
  unfold commonInit, handle, isStarted, interactionMode, Info.ensureHandle.
  cbn [regexInit with_patterns with_procInfo with_options procInfo_ options_].
  destruct (String.eqb (handle_ (procInfo_ p)) "");
    cbn [Info.with_handle interactionMode_];
    destruct (interactionMode_ (procInfo_ p));
    cbn; try destruct (environment (options_ p)); cbn; repeat split.
Qed.

Lemma register_effect (proc : t) (w : World) :
  fst (register proc w) = nextObject w
  /\ objects (snd (register proc w)) = <[nextObject w := proc]> (objects w)
  /\ s_procs (snd (register proc w))
     = <[handle proc := nextObject w]> (s_procs w)
  /\ nextObject (snd (register proc w)) = S (nextObject w)
  /\ handlesGenerated (snd (register proc w)) = handlesGenerated w
  /\ supervisorCalls (env (snd (register proc w))) = supervisorCalls (env w)
  /\ clientEvents (env (snd (register proc w))) = clientEvents (env w)
  /\ fileSystem (env (snd (register proc w)))
     = snd (FS.writeStringToFile kConsoleIndex
              (json_write (processesAsJson (snd (register proc w))))
              (fileSystem (env w))).
Proof.
  unfold register, allocate. cbn [fst snd].
  set (w1 := with_s_procs _ _).
  destruct (saveConsoleProcesses_index w1)
    as (Ho & Hs & Hn & Hg & Hev & _ & Hsup & _ & Hfs).
  rewrite Ho, Hs, Hn, Hg, Hev, Hsup, Hfs,
    (processesAsJson_same w1 _ Ho Hs).
  subst w1. repeat split.
Qed.

Lemma noteHandle_members (procInfo : ConsoleProcessInfo) (w : World) :
  objects (noteHandle procInfo w) = objects w
  /\ s_procs (noteHandle procInfo w) = s_procs w
  /\ nextObject (noteHandle procInfo w) = nextObject w
  /\ env (noteHandle procInfo w) = env w
  /\ handlesGenerated (noteHandle procInfo w)
     = (if String.eqb (handle_ procInfo) "" then S (handlesGenerated w)
        else handlesGenerated w).
Proof.
  unfold noteHandle. destruct (String.eqb (handle_ procInfo) "");
    repeat split.
Qed.

(** What [create] leaves: the new process under its handle, at a fresh
    identity. *)
Lemma create_effect (command : string) (options : ProcessOptions)
    (procInfo : ConsoleProcessInfo) (w : World) :
  let h := if String.eqb (handle_ procInfo) ""
           then generateShortenedUuid (handlesGenerated w)
           else handle_ procInfo in
  let proc :=
    new_command (generateShortenedUuid (handlesGenerated w)) command
      (Options.with_terminateChildren true options) procInfo in
  handle proc = h
  /\ fst (create command options procInfo w) = nextObject w
  /\ objects (snd (create command options procInfo w))
     = <[nextObject w := proc]> (objects w)
  /\ s_procs (snd (create command options procInfo w))
     = <[h := nextObject w]> (s_procs w)
  /\ nextObject (snd (create command options procInfo w)) = S (nextObject w)
  /\ handlesGenerated (snd (create command options procInfo w))
     = (if String.eqb (handle_ procInfo) "" then S (handlesGenerated w)
        else handlesGenerated w)
  /\ supervisorCalls (env (snd (create command options procInfo w)))
     = supervisorCalls (env w)
  /\ fileSystem (env (snd (create command options procInfo w)))
     = snd (FS.writeStringToFile kConsoleIndex
              (json_write
                 (processesAsJson (snd (create command options procInfo w))))
              (fileSystem (env w))).
Proof.
  cbv zeta. unfold create.
  set (proc := new_command _ command _ procInfo).
  assert (Hh : handle proc
               = (if String.eqb (handle_ procInfo) ""
                  then generateShortenedUuid (handlesGenerated w)
                  else handle_ procInfo)).
  { subst proc. unfold new_command.
    now rewrite (proj1 (commonInit_members _ _)). }
  destruct (register_effect proc (noteHandle procInfo w))
    as (Hid & Ho & Hs & Hn & Hg & Hsup & _ & Hfs).
  destruct (noteHandle_members procInfo w) as (Ho' & Hs' & Hn' & He' & Hg').
  rewrite Hid, Ho, Hs, Hn, Hg, Hsup, Hfs, Ho', Hs', Hn', He', Hg', Hh.
  repeat split.
Qed.

(** X14. [create] files a new process object, and never launches it: the
    object has a fresh identity and is found under its handle, which is
    the handle of the entry given, or a generated one when the entry has
    none; its options have the children terminated with it and standard
    error redirected; the other handles keep their entries; the
    supervisor is not called; and where the index can be written it
    holds the JSON of the table with the new process in it. *)
Theorem create_files_a_new_process (command : string)
    (options : ProcessOptions) (procInfo : ConsoleProcessInfo) (w : World) :
  let r := create command options procInfo w in
  let h := if String.eqb (handle_ procInfo) ""
           then generateShortenedUuid (handlesGenerated w)
           else handle_ procInfo in
  fst r = nextObject w
  /\ (exists proc,
        find h (snd r) = Some (nextObject w, proc)
        /\ handle proc = h
        /\ command_ proc = command
        /\ terminateChildren (options_ proc) = true
        /\ redirectStdErrToStdOut (options_ proc) = true
        /\ isStarted proc = isStarted_ procInfo
        /\ inputQueue_ proc = []
        /\ interrupt_ proc = false
        /\ sizePending proc = false)
  /\ (forall h', h' <> h -> s_procs (snd r) !! h' = s_procs w !! h')
  /\ supervisorCalls (env (snd r)) = supervisorCalls (env w)
  /\ (writable (fileSystem (env w)) = true ->
      files (fileSystem (env (snd r))) !! kConsoleIndex
      = Some (json_write (processesAsJson (snd r)))).
Proof.
  cbv zeta.
  destruct (create_effect command options procInfo w)
    as (Hh & Hid & Ho & Hs & _ & _ & Hsup & Hfs).
  split; [exact Hid|]. split; [|split; [|split; [exact Hsup|]]].
  - eexists. split.
    + apply find_Some. rewrite Hs, Ho, !lookup_insert_eq. split; reflexivity.
    + split; [exact Hh|]. unfold new_command, sizePending.
      destruct (commonInit_members
                  (generateShortenedUuid (handlesGenerated w))
                  (mk command "" [] (Options.with_terminateChildren true options)
                     procInfo false (-1) (-1) false [] None [] Never Never))
        as (_ & Hr & Ht & _ & Hc & _ & Hst & Hi & Hq & Hnc & Hnr & _).
      rewrite Hr, Ht, Hc, Hst, Hi, Hq, Hnc, Hnr. repeat split.
  - intros h' Hne. rewrite Hs. apply lookup_insert_ne. congruence.
  - intros Hw. rewrite Hfs. unfold FS.writeStringToFile. rewrite Hw. cbn.
    apply lookup_insert_eq.
Qed.

(** X15. Two processes created one after the other from entries without
    a handle get the handles the generator gives for two successive
    counts; when these differ the two processes are two objects, both in
    the table, each under its own handle. *)
Theorem create_twice_files_two_processes (command1 command2 : string)
    (options1 options2 : ProcessOptions)
    (procInfo1 procInfo2 : ConsoleProcessInfo) (w : World) :
  handle_ procInfo1 = "" ->
  handle_ procInfo2 = "" ->
  generateShortenedUuid (handlesGenerated w)
  <> generateShortenedUuid (S (handlesGenerated w)) ->
  let r1 := create command1 options1 procInfo1 w in
  let r2 := create command2 options2 procInfo2 (snd r1) in
  fst r1 <> fst r2
  /\ exists p1 p2,
       find (generateShortenedUuid (handlesGenerated w)) (snd r2)
       = Some (fst r1, p1)
       /\ find (generateShortenedUuid (S (handlesGenerated w))) (snd r2)
          = Some (fst r2, p2)
       /\ handle p1 = generateShortenedUuid (handlesGenerated w)
       /\ handle p2 = generateShortenedUuid (S (handlesGenerated w)).
Proof.
  intros He1 He2 Hne. cbv zeta.
  destruct (create_effect command1 options1 procInfo1 w)
    as (Hh1 & Hid1 & Ho1 & Hs1 & Hn1 & Hg1 & _).
  destruct (create_effect command2 options2 procInfo2
              (snd (create command1 options1 procInfo1 w)))
    as (Hh2 & Hid2 & Ho2 & Hs2 & _).
  rewrite He1, String.eqb_refl in Hh1, Hs1, Hg1.
  rewrite He2, String.eqb_refl, Hg1 in Hh2, Hs2.
  rewrite Hg1 in Ho2. rewrite Hn1 in Hid2, Ho2, Hs2.
  rewrite Hid1, Hid2. split; [lia|].
  eexists. eexists. split; [|split; [|split; [exact Hh1|exact Hh2]]].
  - apply find_Some. rewrite Hs2, Ho2, Hs1, Ho1.
    rewrite lookup_insert_ne by congruence. rewrite lookup_insert_eq.
    rewrite lookup_insert_ne by lia. rewrite lookup_insert_eq.
    split; reflexivity.
  - apply find_Some. rewrite Hs2, Ho2, !lookup_insert_eq. split; reflexivity.
Qed.

(** *** The invariant, call by call *)

Lemma tableInvariant_update (h : string) (w : World) (pos : nat) (p p' : t) :
  tableInvariant w ->
  find h w = Some (pos, p) ->
  handle p' = handle p ->
  tableInvariant (with_objects (<[pos := p']> (objects w)) w).
Proof.
  intros Hinv Hf Hh h1 id Hl. apply find_Some in Hf as [_ Hp].
  destruct (Hinv h1 id Hl) as (Hlt & q & Hq & Hhq).
  split; [exact Hlt|]. cbn [objects with_objects].
  destruct (decide (pos = id)) as [->|Hne].
  - exists p'. rewrite lookup_insert_eq. split; [reflexivity|]. congruence.
  - exists q. now rewrite lookup_insert_ne.
Qed.

Lemma tableInvariant_env (e : Env) (w : World) :
  tableInvariant w -> tableInvariant (with_env e w).
Proof. intros Hinv. exact Hinv. Qed.

Lemma start_handle (p : t) (e : Env) :
  handle (snd (fst (start p e))) = handle p.
Proof.
  unfold start. destruct (isStarted p); [reflexivity|].
  now destruct (negb (isError _)).
Qed.

Lemma tableInvariant_delete (h : string) (w : World) :
  tableInvariant w -> tableInvariant (with_s_procs (delete h (s_procs w)) w).
Proof.
  intros Hinv h1 id. cbn [s_procs with_s_procs].
  destruct (decide (h = h1)) as [->|Hne].
  - now rewrite lookup_delete_eq.
  - rewrite lookup_delete_ne by exact Hne. apply Hinv.
Qed.

Lemma deleteIfOrphan_table (isDirectory : string -> bool) (child : string)
    (w : World) :
  objects (deleteIfOrphan isDirectory child w) = objects w
  /\ s_procs (deleteIfOrphan isDirectory child w) = s_procs w
  /\ nextObject (deleteIfOrphan isDirectory child w) = nextObject w.
Proof.
  unfold deleteIfOrphan.
  destruct (String.eqb child kConsoleIndex || isDirectory child);
    [tauto|].
  destruct (s_procs w !! child); cbn; tauto.
Qed.

Lemma orphans_table (isDirectory : string -> bool) (children : list string)
    (w : World) :
  objects (fold_left (fun w child => deleteIfOrphan isDirectory child w)
             children w) = objects w
  /\ s_procs (fold_left (fun w child => deleteIfOrphan isDirectory child w)
                children w) = s_procs w
  /\ nextObject (fold_left (fun w child => deleteIfOrphan isDirectory child w)
                   children w) = nextObject w.
Proof.
  revert w. induction children as [|child rest IH]; intros w; simpl;
    [tauto|].
  destruct (IH (deleteIfOrphan isDirectory child w)) as (Ho & Hs & Hn).
  destruct (deleteIfOrphan_table isDirectory child w) as (Ho' & Hs' & Hn').
  rewrite Ho, Hs, Hn. tauto.
Qed.

Lemma tableInvariant_load (isDirectory : string -> bool) (w w' : World) :
  loadConsoleProcesses isDirectory w = Some w' ->
  tableInvariant w -> tableInvariant w'.
Proof.
  unfold loadConsoleProcesses.
  destruct (negb (FS.exists_ kConsoleIndex (fileSystem (env w))));
    [now intros [= <-]|].
  destruct (FS.readStringFromFile kConsoleIndex (fileSystem (env w)))
    as [[|what] contents]; [|now intros [= <-]].
  destruct (deserializeConsoleProcs contents w) as [w1|] eqn:Hd;
    [|discriminate].
  intros Hl Hinv.
  pose proof (tableInvariant_deserializeConsoleProcs _ _ _ Hd Hinv) as Hinv1.
  destruct (FS_children (fileSystem (env w1))) as [[|what] children];
    injection Hl as <-; [|exact Hinv1].
  destruct (orphans_table isDirectory children w1) as (Ho & Hs & Hn).
  exact (tableInvariant_same_table _ _ Ho Hs Hn Hinv1).
Qed.

(** X16. The table stays well formed: if every entry points to an
    allocated process object that has the handle it is filed under, the
    same holds after creating a process in either way, creating or
    reattaching a terminal, every remote call, saving, reading a
    persisted index and loading at start-up. *)
Theorem table_invariant_is_kept (crypto : Crypto)
    (isDirectory : string -> bool) (w : World) :
  tableInvariant w ->
  (forall command options procInfo,
     tableInvariant (snd (create command options procInfo w)))
  /\ (forall program args options procInfo,
        tableInvariant (snd (create_program program args options procInfo w)))
  /\ (forall options procInfo,
        tableInvariant (snd (createTerminalProcess options procInfo w)))
  /\ (forall h, tableInvariant (snd (procStart h w)))
  /\ (forall h, tableInvariant (snd (procInterrupt h w)))
  /\ (forall h, tableInvariant (snd (procReap h w)))
  /\ (forall h input, tableInvariant (snd (procWriteStdin crypto h input w)))
  /\ (forall h c r, tableInvariant (snd (procSetSize h c r w)))
  /\ (forall h caption, tableInvariant (snd (procSetCaption h caption w)))
  /\ (forall h title, tableInvariant (snd (procSetTitle h title w)))
  /\ (forall h, tableInvariant (snd (procEraseBuffer h w)))
  /\ (forall terminatedNormally,
        tableInvariant (saveConsoleProcesses terminatedNormally w))
  /\ (forall jsonStr w',
        deserializeConsoleProcs jsonStr w = Some w' -> tableInvariant w')
  /\ (forall w',
        loadConsoleProcesses isDirectory w = Some w' -> tableInvariant w').
Proof.
  intros Hinv.
  assert (Hsave : forall b w1, tableInvariant w1 ->
                               tableInvariant (saveConsoleProcesses b w1)).
  { intros b w1 Hw1.
    destruct (saveConsoleProcesses_table b w1) as (Ho & Hs & Hn).
    exact (tableInvariant_same_table _ _ Ho Hs Hn Hw1). }
  repeat match goal with |- _ /\ _ => split end.
  - intros. now apply tableInvariant_create.
  - intros. unfold create_program.
    now apply tableInvariant_register, tableInvariant_noteHandle.
  - intros. now apply tableInvariant_createTerminalProcess.
  - intros h. unfold procStart.
    destruct (find h w) as [[pos p]|] eqn:Hf; [|exact Hinv].
    pose proof (start_handle p (env w)) as Hh.
    destruct (start p (env w)) as [[error p1] e1]. cbn [fst snd] in *.
    apply tableInvariant_env.
    exact (tableInvariant_update h w pos p p1 Hinv Hf Hh).
  - intros h. unfold procInterrupt.
    destruct (find h w) as [[pos p]|] eqn:Hf; [|exact Hinv].
    cbn [snd]. apply (tableInvariant_update h w pos p);
      [exact Hinv|exact Hf|reflexivity].
  - intros h. unfold procReap.
    destruct (find h w) as [[pos p]|] eqn:Hf; [|exact Hinv].
    cbn [snd]. apply Hsave.
    apply (tableInvariant_delete h (with_env _ w)). exact Hinv.
  - intros h input. unfold procWriteStdin.
    destruct (find h w) as [[pos p]|] eqn:Hf; [|exact Hinv].
    destruct (if serverMode crypto && negb (Input.interrupt input)
              then rsaPrivateDecrypt crypto (Input.text input)
              else (Success, Input.text input)) as [[|what] txt];
      [|exact Hinv].
    cbn [snd]. apply (tableInvariant_update h w pos p);
      [exact Hinv|exact Hf|reflexivity].
  - intros h c r. unfold procSetSize.
    destruct (find h w) as [[pos p]|] eqn:Hf; [|exact Hinv].
    cbn [snd]. apply (tableInvariant_update h w pos p);
      [exact Hinv|exact Hf|reflexivity].
  - intros h caption. unfold procSetCaption.
    destruct (find h w) as [[pos p]|] eqn:Hf; [|exact Hinv].
    cbn [snd]. apply Hsave.
    apply (tableInvariant_update h w pos p);
      [exact Hinv|exact Hf|reflexivity].
  - intros h title. unfold procSetTitle.
    destruct (find h w) as [[pos p]|] eqn:Hf; [|exact Hinv].
    cbn [snd]. apply (tableInvariant_update h w pos p);
      [exact Hinv|exact Hf|reflexivity].
  - intros h. unfold procEraseBuffer.
    destruct (find h w) as [[pos p]|] eqn:Hf; exact Hinv.
  - intros b. now apply Hsave.
  - intros jsonStr w' Hd.
    exact (tableInvariant_deserializeConsoleProcs _ _ _ Hd Hinv).
  - intros w' Hl. exact (tableInvariant_load _ _ _ Hl Hinv).
Qed.

(** *** Loading at start-up *)

Lemma deserializeEntries_env (procs : list Json) (w w' : World) :
  deserializeEntries procs w = Some w' -> env w' = env w.
Proof.
  revert w. induction procs as [|j procs IH]; intros w; simpl.
  - now intros [= <-].
  - destruct j as [| | | | |obj]; try discriminate.
    destruct (fromJson obj) as [proc|]; [|discriminate].
    intros Hd. now rewrite (IH _ Hd).
Qed.

Lemma deserializeConsoleProcs_env (jsonStr : string) (w w' : World) :
  deserializeConsoleProcs jsonStr w = Some w' -> env w' = env w.
Proof.
  unfold deserializeConsoleProcs.
  destruct (String.eqb jsonStr ""); [now intros [= <-]|].
  destruct (json_parse jsonStr) as [[| | | |procs|]|]; try discriminate;
    [|now intros [= <-]].
  apply deserializeEntries_env.
Qed.

Lemma deleteIfOrphan_files (isDirectory : string -> bool) (child : string)
    (w : World) :
  (forall name,
     files (fileSystem (env (deleteIfOrphan isDirectory child w))) !! name
     = files (fileSystem (env w)) !! name
     \/ (name = child /\ spared isDirectory w child = false
         /\ files (fileSystem (env (deleteIfOrphan isDirectory child w)))
            !! name = None))
  /\ (writable (fileSystem (env w)) = true ->
      spared isDirectory w child = false ->
      files (fileSystem (env (deleteIfOrphan isDirectory child w))) !! child
      = None)
  /\ writable (fileSystem (env (deleteIfOrphan isDirectory child w)))
     = writable (fileSystem (env w)).
Proof.
  unfold deleteIfOrphan, spared, FS_remove.
  destruct (String.eqb child kConsoleIndex || isDirectory child); cbn [orb].
  - repeat split; [now left|discriminate].
  - destruct (s_procs w !! child) as [id|] eqn:Hs.
    + rewrite bool_decide_eq_true_2 by eauto.
      repeat split; [now left|discriminate].
    + rewrite bool_decide_eq_false_2 by (now intros [? ?]).
      destruct (writable (fileSystem (env w))) eqn:Hw; cbn; rewrite ?Hw.
      * repeat split.
        -- intros name. destruct (decide (name = child)) as [->|Hne].
           ++ right. now rewrite lookup_delete_eq.
           ++ left. now rewrite lookup_delete_ne.
        -- intros _ _. apply lookup_delete_eq.
      * repeat split; [now left|discriminate].
Qed.

Lemma orphans_files (isDirectory : string -> bool) (children : list string)
    (w : World) :
  let w' := fold_left (fun w child => deleteIfOrphan isDirectory child w)
              children w in
  (forall name,
     files (fileSystem (env w')) !! name = files (fileSystem (env w)) !! name
     \/ (spared isDirectory w name = false
         /\ files (fileSystem (env w')) !! name = None))
  /\ (writable (fileSystem (env w)) = true ->
      forall name, In name children -> spared isDirectory w name = false ->
                   files (fileSystem (env w')) !! name = None).
Proof.
  cbv zeta. revert w.
  induction children as [|child rest IH]; intros w; cbn [fold_left].
  - split; [now left|]. intros _ name [].
  - destruct (deleteIfOrphan_files isDirectory child w) as (Hone & Hdel & Hw).
    destruct (deleteIfOrphan_table isDirectory child w) as (_ & Hs & _).
    assert (Hsp : forall name,
               spared isDirectory (deleteIfOrphan isDirectory child w) name
               = spared isDirectory w name).
    { intros name. unfold spared. now rewrite Hs. }
    destruct (IH (deleteIfOrphan isDirectory child w)) as (Hall & Hgone).
    split.
    + intros name. destruct (Hall name) as [Heq|[Hns Hn]].
      * rewrite Heq. destruct (Hone name) as [Heq'|(-> & Hns & Hn)];
          [now left|right; now split].
      * right. split; [now rewrite <- Hsp|exact Hn].
    + intros Hwr name [<-|Hin] Hns.
      * destruct (Hall child) as [Heq|[_ Hn]]; [|exact Hn].
        rewrite Heq. now apply Hdel.
      * apply Hgone; [now rewrite Hw|exact Hin|now rewrite Hsp].
Qed.

Lemma In_children (m : gmap string string) (name : string) :
  In name (map_to_list m).*1 <-> is_Some (m !! name).
Proof.
  rewrite <- list_elem_of_In, list_elem_of_fmap. split.
  - intros ([k v] & -> & Hin). apply elem_of_map_to_list in Hin.
    simpl. eauto.
  - intros [v Hv]. exists (name, v). split; [reflexivity|].
    now apply elem_of_map_to_list.
Qed.

(** X17. Loading at start-up deletes files of the scratch directory and
    does nothing else to them: a file is left exactly as it was or is
    gone, and the index, the subfolders and the files named by a handle
    of the loaded table are always left. Where the directory can be had,
    read and written and the index exists, every other file is gone
    afterwards. *)
Theorem loadConsoleProcesses_deletes_orphans_only
    (isDirectory : string -> bool) (w w' : World) :
  loadConsoleProcesses isDirectory w = Some w' ->
  (forall name,
     spared isDirectory w' name = true ->
     files (fileSystem (env w')) !! name = files (fileSystem (env w)) !! name)
  /\ (forall name,
        files (fileSystem (env w')) !! name
        = files (fileSystem (env w)) !! name
        \/ files (fileSystem (env w')) !! name = None)
  /\ (dirAvailable (fileSystem (env w)) = true ->
      readable (fileSystem (env w)) = true ->
      writable (fileSystem (env w)) = true ->
      is_Some (files (fileSystem (env w)) !! kConsoleIndex) ->
      forall name,
        spared isDirectory w' name = false ->
        files (fileSystem (env w')) !! name = None).
Proof.
  unfold loadConsoleProcesses, FS.exists_, FS.readStringFromFile, FS_children.
  destruct (files (fileSystem (env w)) !! kConsoleIndex) as [contents|] eqn:Hi.
  2:{ rewrite bool_decide_eq_false_2 by (now intros [? ?]). cbn [negb].
      intros [= <-]. repeat split; auto.
      intros _ _ _ [? ?]. discriminate. }
  rewrite bool_decide_eq_true_2 by eauto. cbn [negb].
  destruct (readable (fileSystem (env w))) eqn:Hr.
  2:{ intros [= <-]. repeat split; auto. discriminate. }
  destruct (deserializeConsoleProcs contents w) as [w1|] eqn:Hd;
    [|discriminate].
  pose proof (deserializeConsoleProcs_env _ _ _ Hd) as He.
  rewrite He.
  destruct (dirAvailable (fileSystem (env w))) eqn:Hdir.
  2:{ intros [= <-]. rewrite He. repeat split; auto. discriminate. }
  intros [= <-].
  set (children := (map_to_list (files (fileSystem (env w)))).*1).
  destruct (orphans_files isDirectory children w1) as (Hall & Hgone).
  destruct (orphans_table isDirectory children w1) as (_ & Hs & _).
  assert (Hsp : forall name,
             spared isDirectory
               (fold_left (fun w child => deleteIfOrphan isDirectory child w)
                  children w1) name
             = spared isDirectory w1 name).
  { intros name. unfold spared. now rewrite Hs. }
  rewrite He in Hall, Hgone.
  split; [|split].
  - intros name Hspared. rewrite Hsp in Hspared.
    destruct (Hall name) as [Heq|[Hns _]]; [exact Heq|congruence].
  - intros name. destruct (Hall name) as [Heq|[_ Hn]]; [now left|now right].
  - intros _ _ Hw _ name Hns. rewrite Hsp in Hns.
    destruct (files (fileSystem (env w)) !! name) as [content|] eqn:Hf.
    + apply (Hgone Hw); [|exact Hns]. apply In_children. eauto.
    + destruct (Hall name) as [Heq|[_ Hn]]; [now rewrite Heq|exact Hn].
Qed.

(** *** Writing input, captions and titles *)

Lemma find_update (h : string) (w : World) (pos : nat) (p p' : t) :
  find h w = Some (pos, p) ->
  find h (with_objects (<[pos := p']> (objects w)) w) = Some (pos, p').
Proof.
  intros [Hs Hp]%find_Some. apply find_Some. cbn.
  split; [exact Hs|apply lookup_insert_eq].
Qed.

(** X18. [procWriteStdin] puts the input behind those already queued for
    the process, so two writes are queued in the order they were made.
    In a server session the text of an input that is not an interrupt is
    decrypted first, and a failing decryption returns its error and
    queues nothing; the text of an interrupt is never decrypted. *)
Theorem procWriteStdin_queues_in_order (crypto : Crypto) (h : string)
    (input1 input2 : Input.t) (w : World) (pos : nat) (p : t) :
  find h w = Some (pos, p) ->
  (serverMode crypto = false ->
   let r1 := procWriteStdin crypto h input1 w in
   let r2 := procWriteStdin crypto h input2 (snd r1) in
   fst r1 = Success /\ fst r2 = Success
   /\ exists p2,
        find h (snd r2) = Some (pos, p2)
        /\ inputQueue_ p2 = (inputQueue_ p ++ [input1; input2])%list)
  /\ (serverMode crypto = true -> Input.interrupt input1 = false ->
      match rsaPrivateDecrypt crypto (Input.text input1) with
      | (Success, txt) =>
          exists p1,
            procWriteStdin crypto h input1 w
            = (Success, with_objects (<[pos := p1]> (objects w)) w)
            /\ inputQueue_ p1
               = (inputQueue_ p
                  ++ [Input.mk false txt (Input.echoInput input1)])%list
      | (error, _) => procWriteStdin crypto h input1 w = (error, w)
      end)
  /\ (Input.interrupt input1 = true ->
      procWriteStdin crypto h input1 w
      = (Success,
         with_objects (<[pos := enqueInput input1 p]> (objects w)) w)).
Proof.
  intros Hf. split; [|split].
  - intros Hd. cbv zeta.
    assert (Hone : forall input w1 p1,
               find h w1 = Some (pos, p1) ->
               procWriteStdin crypto h input w1
               = (Success,
                  with_objects (<[pos := enqueInput input p1]> (objects w1)) w1)).
    { intros input w1 p1 Hf1. unfold procWriteStdin.
      rewrite Hf1, Hd. cbn. now destruct input. }
    rewrite (Hone input1 w p Hf). cbn [fst snd].
    rewrite (Hone input2 _ _ (find_update h w pos p _ Hf)). cbn [fst snd].
    repeat split. eexists. split.
    + exact (find_update h _ pos _ _ (find_update h w pos p _ Hf)).
    + cbn. now rewrite <- app_assoc.
  - intros Hs Hi. unfold procWriteStdin. rewrite Hf, Hs, Hi. cbn.
    destruct (rsaPrivateDecrypt crypto (Input.text input1)) as [[|what] txt].
    + eexists. split; [reflexivity|reflexivity].
    + reflexivity.
  - intros Hi. unfold procWriteStdin. rewrite Hf, Hi, andb_false_r.
    destruct input1 as [i t0 ec]. cbn in *. now subst i.
Qed.

(** X19. Setting the caption changes the entry and saves the index at
    once, so that, where it can be written, the index holds the table
    with the new caption; setting the title changes the entry only: no
    file is written, and the index on disk is as it was. *)
Theorem caption_is_saved_title_is_not (h text : string) (w : World)
    (pos : nat) (p : t) :
  find h w = Some (pos, p) ->
  let rc := procSetCaption h text w in
  let rt := procSetTitle h text w in
  fst rc = Success /\ fst rt = Success
  /\ find h (snd rc)
     = Some (pos, with_procInfo (Info.setCaption text (procInfo_ p)) p)
  /\ (writable (fileSystem (env w)) = true ->
      files (fileSystem (env (snd rc))) !! kConsoleIndex
      = Some (json_write (processesAsJson (snd rc))))
  /\ find h (snd rt)
     = Some (pos, with_procInfo (Info.setTitle text (procInfo_ p)) p)
  /\ env (snd rt) = env w.
Proof.
  intros Hf. cbv zeta. unfold procSetCaption, procSetTitle. rewrite Hf.
  cbn [fst snd].
  set (w1 := with_objects _ w).
  destruct (saveConsoleProcesses_index w1)
    as (Ho & Hs & _ & _ & _ & _ & _ & _ & Hfs).
  repeat split.
  - unfold find. rewrite Hs, Ho.
    exact (find_update h w pos p _ Hf).
  - intros Hw. rewrite Hfs, (processesAsJson_same w1 _ Ho Hs).
    unfold FS.writeStringToFile. subst w1. cbn. rewrite Hw. cbn.
    apply lookup_insert_eq.
  - exact (find_update h w pos p _ Hf).
Qed.

(** X24. Starting, through the remote call, a process that is not
    started asks the supervisor once; when the launch succeeds the
    process is started, and starting it again succeeds without asking
    the supervisor and without changing anything. *)
Theorem procStart_launches_once (h : string) (w : World) (pos : nat) (p : t) :
  find h w = Some (pos, p) ->
  isStarted p = false ->
  launchOutcome (supervisorCalls (env w)) (launchRequest p) = Success ->
  let r := procStart h w in
  fst r = Success
  /\ supervisorCalls (env (snd r))
     = (supervisorCalls (env w) ++ [launchRequest p])%list
  /\ (exists p1, find h (snd r) = Some (pos, p1) /\ isStarted p1 = true)
  /\ procStart h (snd r) = (Success, snd r).
Proof.
  intros Hf Hs Hok. cbv zeta.
  set (p1 := with_procInfo (Info.setIsStarted true (procInfo_ p)) p).
  assert (Hstart : start p (env w)
                   = (Success, p1, supervisorCall (launchRequest p) (env w))).
  { unfold start. now rewrite Hs, Hok. }
  assert (Hfirst : procStart h w
                   = (Success,
                      with_env (supervisorCall (launchRequest p) (env w))
                        (with_objects (<[pos := p1]> (objects w)) w))).
  { unfold procStart. now rewrite Hf, Hstart. }
  rewrite Hfirst. cbn [fst snd].
  assert (Hf1 : find h (with_env (supervisorCall (launchRequest p) (env w))
                          (with_objects (<[pos := p1]> (objects w)) w))
                = Some (pos, p1))
    by exact (find_update h w pos p p1 Hf).
  repeat split.
  - exists p1. now split.
  - unfold procStart. rewrite Hf1.
    assert (Hagain : forall e, start p1 e = (Success, p1, e))
      by (intros e; reflexivity).
    rewrite Hagain. cbn. unfold with_env, with_objects. cbn.
    now rewrite insert_insert_eq.
Qed.

(** *** Reading an index into a table that is not empty *)

Lemma deserializeEntries_only_adds (procs : list Json) (w w' : World) :
  deserializeEntries procs w = Some w' ->
  (nextObject w <= nextObject w')%nat
  /\ (forall h, is_Some (s_procs w !! h) -> is_Some (s_procs w' !! h))
  /\ (forall id, (id < nextObject w)%nat ->
                 objects w' !! id = objects w !! id).
Proof.
  revert w. induction procs as [|j procs IH]; intros w; simpl.
  - intros [= <-]. repeat split; auto.
  - destruct j as [| | | | |obj]; try discriminate.
    destruct (fromJson obj) as [proc|]; [|discriminate].
    intros Hd. destruct (IH _ Hd) as (Hn & Hk & Ho). cbn in Hn, Hk, Ho.
    split; [lia|]. split.
    + intros h Hsome. apply Hk.
      destruct (decide (handle proc = h)) as [<-|Hne].
      * rewrite lookup_insert_eq. eauto.
      * now rewrite lookup_insert_ne.
    + intros id Hid. rewrite Ho by lia. apply lookup_insert_ne. lia.
Qed.

(** X20. Reading a persisted index only adds to what is there: the
    files, the events and the password manager are untouched, every
    handle of the table is still in it, and every process object
    allocated before is unchanged. An empty text and a text that does
    not parse leave everything as it is. *)
Theorem deserializeConsoleProcs_only_adds (jsonStr : string) (w w' : World) :
  deserializeConsoleProcs jsonStr w = Some w' ->
  env w' = env w
  /\ (forall h, is_Some (s_procs w !! h) -> is_Some (s_procs w' !! h))
  /\ (forall id, (id < nextObject w)%nat ->
                 objects w' !! id = objects w !! id)
  /\ (jsonStr = "" \/ json_parse jsonStr = None -> w' = w).
Proof.
  intros Hd. split; [exact (deserializeConsoleProcs_env _ _ _ Hd)|].
  unfold deserializeConsoleProcs in Hd.
  destruct (String.eqb_spec jsonStr "") as [->|Hne].
  - injection Hd as <-. repeat split; auto.
  - destruct (json_parse jsonStr) as [[| | | |procs|]|] eqn:Hp;
      try discriminate.
    + destruct (deserializeEntries_only_adds _ _ _ Hd) as (_ & Hk & Ho).
      repeat split; [exact Hk|exact Ho|].
      intros [?|?]; [contradiction|discriminate].
    + injection Hd as <-. repeat split; auto.
Qed.

(** *** A terminal whose handle is in use *)

(** X21. Unless a started process is filed under the handle of an entry
    that allows a restart, [createTerminalProcess] is [create] with an
    empty command. In particular, when the handle is filed but its
    process is not started, a new process object takes the entry: it has
    another identity and the same handle, the table has the same
    handles as before, and the old object is left as it is. *)
Theorem createTerminalProcess_creates_unless_started
    (options : ProcessOptions) (procInfo : ConsoleProcessInfo) (w : World) :
  (allowRestart_ procInfo = false \/ handle_ procInfo = ""
   \/ forall pos p,
        find (handle_ procInfo) w = Some (pos, p) -> isStarted p = false) ->
  createTerminalProcess options procInfo w = create "" options procInfo w
  /\ (forall pos p,
        tableInvariant w ->
        handle_ procInfo <> "" ->
        find (handle_ procInfo) w = Some (pos, p) ->
        let r := createTerminalProcess options procInfo w in
        fst r = nextObject w /\ fst r <> pos
        /\ s_procs (snd r) !! handle_ procInfo = Some (nextObject w)
        /\ dom (s_procs (snd r)) = dom (s_procs w)
        /\ objects (snd r) !! pos = Some p).
Proof.
  intros Hcase.
  assert (Heq : createTerminalProcess options procInfo w
                = create "" options procInfo w).
  { unfold createTerminalProcess, create.
    destruct (allowRestart_ procInfo); [|reflexivity].
    destruct (String.eqb_spec (handle_ procInfo) "") as [He|Hne];
      [reflexivity|]. cbn [andb negb].
    destruct (find (handle_ procInfo) w) as [[pos p]|] eqn:Hf;
      [|reflexivity].
    destruct Hcase as [?|[?|Hstop]]; [discriminate|contradiction|].
    now rewrite (Hstop pos p eq_refl). }
  split; [exact Heq|].
  intros pos p Hinv Hne Hf. cbv zeta. rewrite Heq.
  destruct (create_effect "" options procInfo w)
    as (_ & Hid & Ho & Hs & _).
  apply String.eqb_neq in Hne. rewrite Hne in Hs.
  apply find_Some in Hf as [Hpos Hp].
  destruct (Hinv _ _ Hpos) as (Hlt & _).
  rewrite Hid, Ho, Hs. repeat split.
  - lia.
  - apply lookup_insert_eq.
  - apply dom_insert_lookup_L. eauto.
  - rewrite lookup_insert_ne by lia. exact Hp.
Qed.

End Calls.

(** * Further concrete runs *)

Section MoreRuns.

Import ConsoleProcess.

(** X1, witness: the interrupt is made before the text is written. *)
Lemma onContinue_delivers_queue_in_order_witness :
  opsCalls (snd (onContinue Sample2.busyProc Sample.env0))
  = [PtyInterrupt; WriteToStdin ("ls" +:+ str1 lf) false].
Proof.
  pose proof (onContinue_delivers_queue_in_order Sample2.busyProc Sample.env0
                eq_refl) as (_ & _ & Hops & _).
  rewrite Hops. reflexivity.
Defined.


(** X3, witness: 80 by 24 is asked for, then 120 by 40. *)
Lemma resize_last_request_is_sent_once_witness :
  opsCalls
    (snd (onContinue (resize 120 40 (resize 80 24 Sample.modalProc))
            Sample.env0))
  = [PtySetSize 120 40].
Proof.
  destruct (proj1 (resize_last_request_is_sent_once 80 24 120 40
                     Sample.modalProc Sample.env0 eq_refl))
    as [Hops _]; [discriminate|discriminate|].
  rewrite Hops. reflexivity.
Defined.

(** X5, witness: a line, then the beginning of a prompt. *)
Lemma onStdout_cuts_at_last_line_break_witness :
  find_last_of
    (@convertLineEndingsPosix Sample.host ("ok" +:+ str1 lf +:+ "Name: "))
    (String lf (str1 ff)) = Some 2%nat
  /\ clientEvents
       (snd (@onStdout Sample.host ("ok" +:+ str1 lf +:+ "Name: ")
               Sample.modalProc Sample.env0))
     = [ConsoleProcessOutput "M1" false "ok";
        ConsoleProcessPrompt "M1" "Name: "].
Proof.
  pose proof (@onStdout_cuts_at_last_line_break Sample.host
                ("ok" +:+ str1 lf +:+ "Name: ") Sample.modalProc Sample.env0
                eq_refl eq_refl) as Hcut.
  cbv zeta in Hcut.
  change (find_last_of
            (@convertLineEndingsPosix Sample.host
               ("ok" +:+ str1 lf +:+ "Name: "))
            (String lf (str1 ff))) with (Some 2%nat) in Hcut.
  destruct Hcut as [_ Heq]. split; [reflexivity|].
  rewrite Heq. reflexivity.
Defined.

(** X6, witness: two complete lines, with the password manager
    attached. *)
Lemma complete_lines_are_never_prompts_witness :
  clientEvents
    (snd (@onStdoutAll Sample.host
            ["Password: " +:+ str1 lf; "done" +:+ str1 cr +:+ str1 lf]
            (PasswordManager_attach true Sample.modalProc) Sample.env0))
  = [ConsoleProcessOutput "M1" false ("Password: " +:+ str1 lf);
     ConsoleProcessOutput "M1" false ("done" +:+ str1 lf)].
Proof.
  destruct (@complete_lines_are_never_prompts Sample.host
              ["Password: " +:+ str1 lf; "done" +:+ str1 cr +:+ str1 lf]
              (PasswordManager_attach true Sample.modalProc) Sample.env0
              eq_refl) as (Hev & _).
  - repeat constructor.
  - rewrite Hev. reflexivity.
Defined.

(** X7, witness: the terminal tab with no scratch directory. *)
Lemma storage_failure_is_dropped_witness :
  appendToOutputBuffer "lost" Sample.terminalProc Sample2.brokenEnv
  = (Sample.terminalProc, Sample2.brokenEnv)
  /\ getSavedBuffer Sample.terminalProc Sample2.brokenEnv = "".
Proof.
  destruct (storage_failure_is_dropped "lost" false Sample.terminalProc
              Sample2.brokenEnv) as [Hw Hr]; [discriminate|].
  split; [apply Hw|apply Hr]; now left.
Defined.

(** X8, witness: process "A" is asked, process "B" is answered from the
    cache. *)
Lemma handlePrompt_caches_the_typed_password_witness :
  let first :=
    PasswordManager.handlePrompt "A" "Password: " true Sample2.pmEmpty in
  PasswordManager.handlePrompt "B" "Password: " false (snd first)
  = (Some (Input.of_text ("typed" +:+ str1 lf) false), snd first).
Proof.
  apply (handlePrompt_caches_the_typed_password "A" "B" "Password: " "typed"
           true false true Sample2.pmEmpty eq_refl);
    [intros c []|reflexivity].
Defined.

(** X10, witness: the process "M1" fails; the cache holds a password of
    "A" only, which stays. *)
Lemma exit_of_attached_process_purges_its_passwords_witness :
  PasswordManager.passwords_
    (passwordManager
       (snd (onExit 1 (PasswordManager_attach true Sample.modalProc)
               Sample.env0)))
  = [Sample.secretOfA].
Proof.
  destruct (exit_of_attached_process_purges_its_passwords 1 true
              Sample.modalProc Sample.env0 eq_refl) as (_ & _ & Hpw).
  rewrite Hpw. reflexivity.
Defined.

(** X11, witness: nothing is filed under "nope". *)
Lemma unknown_handle_is_refused_witness :
  @procStart Sample.host "nope" Sample.world0
  = (invalid_argument, Sample.world0)
  /\ procGetBuffer "nope" Sample.world0 = (invalid_argument, None).
Proof.
  destruct (@unknown_handle_is_refused Sample.host Sample2.desktopCrypto
              "nope" "" Input.default 0 0 Sample.world0)
    as (Hstart & _ & _ & _ & _ & _ & _ & _ & Hget).
  - vm_compute. reflexivity.
  - split; assumption.
Defined.

(** X12, witness: the terminal "T1" is reaped; "M1" stays. *)
Lemma procReap_forgets_the_handle_witness :
  find "T1" (snd (@procReap Sample.host "T1" Sample.world0)) = None
  /\ find "M1" (snd (@procReap Sample.host "T1" Sample.world0))
     = find "M1" Sample.world0.
Proof.
  destruct (@procReap_forgets_the_handle Sample.host "T1" Sample.world0 0%nat
              Sample.startedTerminal)
    as (_ & _ & Hgone & _ & _ & Hother & _).
  - vm_compute. reflexivity.
  - split; [exact Hgone|apply Hother; discriminate].
Defined.

(** X13, witness. *)
Lemma erase_then_get_is_empty_witness :
  procGetBuffer "T1" (snd (procEraseBuffer "T1" Sample.world0))
  = (Success, Some "").
Proof.
  apply (erase_then_get_is_empty "T1" Sample.world0 0%nat
           Sample.startedTerminal); vm_compute; reflexivity.
Defined.

(** X15, witness: the sample generator gives "H0" and then "H1". *)
Lemma create_twice_files_two_processes_witness :
  let noHandle :=
    mkInfo "" "" "" 1 false false None 1000 InteractionAlways "" false in
  let r1 := @create Sample.host "" Sample.options0 noHandle
              Sample.emptyWorld in
  let r2 := @create Sample.host "" Sample.options0 noHandle (snd r1) in
  fst r1 <> fst r2.
Proof.
  apply (@create_twice_files_two_processes Sample.host "" ""
           Sample.options0 Sample.options0
           (mkInfo "" "" "" 1 false false None 1000 InteractionAlways "" false)
           (mkInfo "" "" "" 1 false false None 1000 InteractionAlways "" false)
           Sample.emptyWorld); [reflexivity|reflexivity|discriminate].
Defined.

(** X16, witness: from the empty table. *)
Lemma table_invariant_is_kept_witness :
  tableInvariant
    (snd (@create Sample.host "" Sample.options0 Sample.terminalInfo
            Sample.emptyWorld)).
Proof.
  exact (proj1 (@table_invariant_is_kept Sample.host Sample2.desktopCrypto
                  Sample2.noDirectories Sample.emptyWorld
                  (tableInvariant_empty Sample.emptyWorld eq_refl))
           "" Sample.options0 Sample.terminalInfo).
Defined.

(** X17, witness: the log of "T1" stays, the log of nobody goes. *)
Lemma loadConsoleProcesses_deletes_orphans_only_witness :
  exists w',
    @loadConsoleProcesses Sample.host Sample2.noDirectories Sample2.diskWorld
    = Some w'
    /\ files (fileSystem (env w')) !! "T1" = Some "log of T1"
    /\ files (fileSystem (env w')) !! "GONE" = None.
Proof.
  destruct (@loadConsoleProcesses Sample.host Sample2.noDirectories
              Sample2.diskWorld) as [w'|] eqn:Hl; [|vm_compute in Hl; discriminate].
  exists w'. split; [reflexivity|].
  destruct (@loadConsoleProcesses_deletes_orphans_only Sample.host
              Sample2.noDirectories Sample2.diskWorld w' Hl)
    as (Hkept & _ & Hgone).
  vm_compute in Hl. injection Hl as <-.
  split.
  - rewrite Hkept; vm_compute; reflexivity.
  - apply Hgone; try reflexivity; vm_compute; eauto.
Defined.

(** X18, witness: two lines written in a desktop session. *)
Lemma procWriteStdin_queues_in_order_witness :
  let r1 := procWriteStdin Sample2.desktopCrypto "M1"
              (Input.of_text "a" true) Sample.world0 in
  let r2 := procWriteStdin Sample2.desktopCrypto "M1"
              (Input.of_text "b" true) (snd r1) in
  exists p2,
    find "M1" (snd r2) = Some (1%nat, p2)
    /\ inputQueue_ p2 = [Input.of_text "a" true; Input.of_text "b" true].
Proof.
  destruct (proj1 (procWriteStdin_queues_in_order Sample2.desktopCrypto "M1"
                     (Input.of_text "a" true) (Input.of_text "b" true)
                     Sample.world0 1%nat Sample.modalProc
                     ltac:(vm_compute; reflexivity)) eq_refl)
    as (_ & _ & p2 & Hf & Hq).
  exists p2. split; [exact Hf|exact Hq].
Defined.

(** X19, witness. *)
Lemma caption_is_saved_title_is_not_witness :
  env (snd (procSetTitle "T1" "zsh" Sample.world0)) = env Sample.world0
  /\ files (fileSystem
              (env (snd (@procSetCaption Sample.host "T1" "build"
                           Sample.world0)))) !! kConsoleIndex
     = Some (@json_write Sample.host
               (processesAsJson
                  (snd (@procSetCaption Sample.host "T1" "build"
                          Sample.world0)))).
Proof.
  destruct (@caption_is_saved_title_is_not Sample.host "T1" "build"
              Sample.world0 0%nat Sample.startedTerminal
              ltac:(vm_compute; reflexivity))
    as (_ & _ & _ & Hindex & _).
  destruct (@caption_is_saved_title_is_not Sample.host "T1" "zsh"
              Sample.world0 0%nat Sample.startedTerminal
              ltac:(vm_compute; reflexivity))
    as (_ & _ & _ & _ & _ & Henv).
  split; [exact Henv|apply Hindex; reflexivity].
Defined.

(** X20, witness: an index read into the table that holds "T1" and
    "M1". *)
Lemma deserializeConsoleProcs_only_adds_witness :
  exists w',
    @deserializeConsoleProcs Sample.host
      (Sample.write (JArr [Info.toJson Sample.modalInfo])) Sample.world0
    = Some w'
    /\ env w' = env Sample.world0
    /\ is_Some (s_procs w' !! "T1").
Proof.
  destruct (@deserializeConsoleProcs Sample.host
              (Sample.write (JArr [Info.toJson Sample.modalInfo]))
              Sample.world0) as [w'|] eqn:Hd;
    [|vm_compute in Hd; discriminate].
  exists w'. split; [reflexivity|].
  destruct (@deserializeConsoleProcs_only_adds Sample.host _ _ _ Hd)
    as (Henv & Hkeys & _).
  split; [exact Henv|]. apply Hkeys. vm_compute. eauto.
Defined.

(** X21, witness: "T1" was created and never started; the terminal is
    asked for again. *)
Lemma createTerminalProcess_creates_unless_started_witness :
  @createTerminalProcess Sample.host Sample.options0 Sample.terminalInfo
    Sample2.createdWorld
  = @create Sample.host "" Sample.options0 Sample.terminalInfo
      Sample2.createdWorld.
Proof.
  apply (@createTerminalProcess_creates_unless_started Sample.host).
  right. right. intros pos p Hf. vm_compute in Hf.
  injection Hf as <- <-. reflexivity.
Defined.

(** X23, witness: "Password: " holds no carriage return and no
    backspace. *)
Lemma maybeConsolePrompt_without_control_chars_witness :
  clientEvents
    (snd (maybeConsolePrompt "Password: " Sample.modalProc Sample.env0))
  = [ConsoleProcessPrompt "M1" "Password: "].
Proof.
  rewrite (maybeConsolePrompt_without_control_chars "Password: "
             Sample.modalProc Sample.env0 eq_refl eq_refl eq_refl eq_refl).
  reflexivity.
Defined.

(** X24, witness: the modal console of the sample table is not started
    and the sample supervisor can launch it. *)
Lemma procStart_launches_once_witness :
  @procStart Sample.host "M1"
    (snd (@procStart Sample.host "M1" Sample.world0))
  = (Success, snd (@procStart Sample.host "M1" Sample.world0)).
Proof.
  apply (@procStart_launches_once Sample.host "M1" Sample.world0 1%nat
           Sample.modalProc); vm_compute; reflexivity.
Defined.

End MoreRuns.
